(** * Two-factor identity verification: ID reconciliation, face comparison,
      quality gate, acquisition loops and the flow controller.

    A shallow embedding of the decision logic of the hooks
    [useIDScannerLogic], [useFaceVerification] and [useVerificationFlow] and
    of the student registry service, followed by the properties the design
    document states about them.

    JavaScript numbers are IEEE 754 binary64 values: they are modelled by the
    primitive [float] type, whose operations round exactly as the JavaScript
    ones do.  Strings are [string]s, arrays are [list]s, [null] is [None]. *)

From Stdlib Require Import Bool Arith PeanoNat List Lia ZArith.
From Stdlib Require Import Ascii String DecimalString.
From Stdlib Require Import Floats.
From Stdlib Require Import Reals Lra.
Import ListNotations.

Set Implicit Arguments.

(* ================================================================== *)
(** * Part I: the program                                              *)
(* ================================================================== *)

(** ** Strings: the few [String.prototype] methods the scanner uses *)

Module Str.

(** [/\D/] matches every character that is not one of [0-9]. *)
Definition isDigit (c : ascii) : bool :=
  let n := nat_of_ascii c in (48 <=? n) && (n <=? 57).

(** [text.replace(/\D/g, '')]: the digit characters of [text], in order. *)
Fixpoint stripNonDigits (text : string) : string :=
  match text with
  | EmptyString => EmptyString
  | String c rest =>
      if isDigit c then String c (stripNonDigits rest) else stripNonDigits rest
  end.

(** [s.startsWith(v)]. *)
Fixpoint startsWith (s v : string) : bool :=
  match v, s with
  | EmptyString, _ => true
  | String _ _, EmptyString => false
  | String a v', String b s' => Ascii.eqb a b && startsWith s' v'
  end.

(** [s.includes(v)]: [v] occurs in [s] at some position. *)
Fixpoint includes (s v : string) : bool :=
  startsWith s v ||
  match s with
  | EmptyString => false
  | String _ s' => includes s' v
  end.

(** [s.substring(i, j)] for [i <= j]; as in JavaScript the end is clamped to
    the length of [s]. *)
Definition substring (i j : nat) (s : string) : string :=
  String.substring i (j - i) s.

End Str.

(** [validIds.includes(candidate)] on an array of strings. *)
Definition arrayIncludes (validIds : list string) (candidate : string) : bool :=
  existsb (String.eqb candidate) validIds.

(** ** Text reconciliation: [findValidStudentId] of [useIDScannerLogic] *)

(** First stage, the [for (const validId of validIds)] loop: the first
    identifier, in the array's order, that the digit string contains. *)
Fixpoint exactMatch (digitsOnly : string) (validIds : list string) : option string :=
  match validIds with
  | [] => None
  | validId :: rest =>
      if Str.includes digitsOnly validId then Some validId
      else exactMatch digitsOnly rest
  end.

(** Second stage, [for (let i = 0; i <= digitsOnly.length - 7; i++)]:
    [remaining] counts the iterations left, [i] is the loop variable. *)
Fixpoint slidingWindow (digitsOnly : string) (validIds : list string)
    (remaining i : nat) : option string :=
  match remaining with
  | O => None
  | S remaining' =>
      let candidate := Str.substring i (i + 7) digitsOnly in
      if arrayIncludes validIds candidate then Some candidate
      else slidingWindow digitsOnly validIds remaining' (S i)
  end.

(** [findValidStudentId(text)], with the array returned by
    [getAllValidStudentIDs()] as an argument.  The result is [None] for
    JavaScript's [null]. *)
Definition findValidStudentId (validIds : list string) (text : string) : option string :=
  let digitsOnly := Str.stripNonDigits text in
  match exactMatch digitsOnly validIds with
  | Some validId => Some validId
  | None =>
      if 7 <=? String.length digitsOnly then
        match slidingWindow digitsOnly validIds
                (String.length digitsOnly - 7 + 1) 0 with
        | Some candidate => Some candidate
        | None =>
            let firstSeven := Str.substring 0 7 digitsOnly in
            if arrayIncludes validIds firstSeven then Some firstSeven else None
        end
      else None
  end.

(** ** Numbers

    The two comparators are written once, over the arithmetic they use, and
    read at two instances: [float], the binary64 arithmetic the JavaScript
    engine executes, and [R], the same formulas in exact real arithmetic. *)

Class JsArith (num : Type) : Type := {
  num_zero : num;                       (* the literal 0 *)
  num_one : num;                        (* the literal 1 *)
  num_two : num;                        (* the literal 2 *)
  num_add : num -> num -> num;
  num_sub : num -> num -> num;
  num_mul : num -> num -> num;
  num_div : num -> num -> num;
  num_sqrt : num -> num;                (* Math.sqrt *)
  num_max : num -> num -> num;          (* Math.max, two arguments *)
  num_is_zero : num -> bool             (* x === 0 *)
}.

Declare Scope js_scope.
Delimit Scope js_scope with js.
Notation "x + y" := (num_add x y) : js_scope.
Notation "x - y" := (num_sub x y) : js_scope.
Notation "x * y" := (num_mul x y) : js_scope.
Notation "x / y" := (num_div x y) : js_scope.

(** [Math.max(x, y)] on doubles: NaN if either argument is NaN, otherwise the
    larger one, where [+0] counts as larger than [-0]. *)
Definition Math_max (x y : float) : float :=
  if PrimFloat.is_nan x || PrimFloat.is_nan y then PrimFloat.nan
  else if PrimFloat.ltb x y then y
  else if PrimFloat.ltb y x then x
  else if PrimFloat.get_sign x then y else x.

#[export] Instance float_arith : JsArith float := {|
  num_zero := 0%float;
  num_one := 1%float;
  num_two := 2%float;
  num_add := PrimFloat.add;
  num_sub := PrimFloat.sub;
  num_mul := PrimFloat.mul;
  num_div := PrimFloat.div;
  num_sqrt := PrimFloat.sqrt;
  num_max := Math_max;
  num_is_zero := fun x => PrimFloat.eqb x 0%float
|}.

#[export] Instance real_arith : JsArith R := {|
  num_zero := 0%R;
  num_one := 1%R;
  num_two := 2%R;
  num_add := Rplus;
  num_sub := Rminus;
  num_mul := Rmult;
  num_div := Rdiv;
  num_sqrt := R_sqrt.sqrt;
  num_max := Rmax;
  num_is_zero := fun x => if Req_dec_T x 0%R then true else false
|}.

(** ** Descriptor comparators *)

Section Comparators.

Context {num : Type} {arith : JsArith num}.
Local Open Scope js_scope.

(** The loop of [cosineSimilarity]:
    [dot += a[i] * b[i]; normA += a[i] * a[i]; normB += b[i] * b[i]].
    It runs after the length test, so both arrays are read in range. *)
Fixpoint accumulate (a b : list num) (dot normA normB : num) : num * num * num :=
  match a, b with
  | x :: a', y :: b' =>
      accumulate a' b' (dot + x * y) (normA + x * x) (normB + y * y)
  | _, _ => (dot, normA, normB)
  end.

(** [cosineSimilarity(a, b)] of [useFaceVerification] (the copy in the
    fingerprint page adds an [Array.isArray] test, which lists always pass). *)
Definition cosineSimilarity (a b : option (list num)) : num :=
  match a, b with
  | Some a, Some b =>
      if negb (List.length a =? List.length b)%nat then num_zero
      else
        let '(dot, normA, normB) := accumulate a b num_zero num_zero num_zero in
        let denom := num_sqrt normA * num_sqrt normB in
        if num_is_zero denom then num_zero
        else (dot / denom + num_one) / num_two
  | _, _ => num_zero
  end.

(** The loop of [faceSimilarity]:
    [const diff = a[i] - b[i]; sum += diff * diff]. *)
Fixpoint sumSquaredDiffs (a b : list num) (sum : num) : num :=
  match a, b with
  | x :: a', y :: b' =>
      let diff := x - y in sumSquaredDiffs a' b' (sum + diff * diff)
  | _, _ => sum
  end.

(** [faceSimilarity(a, b)]: [Math.max(0, 1 - distance)]. *)
Definition faceSimilarity (a b : option (list num)) : num :=
  match a, b with
  | Some a, Some b =>
      if negb (List.length a =? List.length b)%nat then num_zero
      else
        let distance := num_sqrt (sumSquaredDiffs a b num_zero) in
        num_max num_zero (num_one - distance)
  | _, _ => num_zero
  end.

End Comparators.

(** ** Quality gate: [checkFaceQuality] *)

(** A face-api detection: [detection.detection.score],
    [detection.detection.box] and [detection.descriptor]. *)
Record Box : Type := {
  box_x : float;
  box_y : float;
  box_width : float;
  box_height : float
}.

Record Detection : Type := {
  score : float;
  box : Box;
  descriptor : list float
}.

Set Warnings "-inexact-float".

Section QualityGate.

Local Open Scope float_scope.

(** [video] is [videoRef.current]: [None] when the element is gone,
    otherwise its [videoWidth]. *)
Definition checkFaceQuality (video : option float) (detection : Detection) : bool :=
  match video with
  | None => false
  | Some videoWidth =>
      if score detection <? 0.5 then false
      else
        let faceBox := box detection in
        let videoCenter := videoWidth / 2 in
        let faceCenter := box_x faceBox + (box_width faceBox / 2) in
        let maxOffset := videoWidth * 0.35 in
        if maxOffset <? abs (faceCenter - videoCenter) then false
        else
          let minSize := videoWidth * 0.15 in
          let maxSize := videoWidth * 0.85 in
          if (box_width faceBox <? minSize) || (maxSize <? box_width faceBox)
          then false
          else true
  end.

End QualityGate.

(** ** The student registry service *)

Record StudentRecord : Type := {
  id : string;
  name : string;
  department : string;
  year : string;
  faceImage : string;
  email : string
}.

(** The [STUDENTS] object, as its entries in the order [Object.keys]
    enumerates them. *)
Definition Registry : Type := list (string * StudentRecord).

(** The entry the object itself has under [key], if it has one. *)
Fixpoint ownProperty (STUDENTS : Registry) (key : string) : option StudentRecord :=
  match STUDENTS with
  | [] => None
  | (entry, student) :: rest =>
      if String.eqb entry key then Some student
      else ownProperty rest key
  end.

(** [STUDENTS] is an object literal, so a property it does not have itself
    is looked for in [Object.prototype], which has these. *)
Definition objectPrototype : list string :=
  ["constructor"; "hasOwnProperty"; "isPrototypeOf"; "propertyIsEnumerable";
   "toLocaleString"; "toString"; "valueOf"; "__proto__";
   "__defineGetter__"; "__defineSetter__"; "__lookupGetter__";
   "__lookupSetter__"]%string.

(** What [STUDENTS[studentId]] can be, and what the [studentData] cell can
    hold: an entry of the registry; what [Object.prototype] has under a name
    (a built-in function, or under ["__proto__"] the prototype itself), which
    is truthy; or any other value, of which only the truthiness is kept. *)
Inductive Value : Type :=
  | Student (record : StudentRecord)
  | Inherited (property : string)
  | Other (truthy : bool).

(** [getStudentByID(studentId)]: [STUDENTS[studentId]], or [null] when that
    is [undefined]. *)
Definition getStudentByID (STUDENTS : Registry) (studentId : string) : option Value :=
  match ownProperty STUDENTS studentId with
  | Some student => Some (Student student)
  | None =>
      if existsb (String.eqb studentId) objectPrototype
      then Some (Inherited studentId)
      else None
  end.

(** [getAllValidStudentIDs()]: [Object.keys(STUDENTS)]. *)
Definition getAllValidStudentIDs (STUDENTS : Registry) : list string :=
  map fst STUDENTS.

(** ** The verification flow controller: [useVerificationFlow] *)

Inductive VerificationState : Type :=
  | SCANNING_ID
  | VERIFYING_FACE
  | SUCCESS
  | FAILED_ID
  | FAILED_FACE
  | FAILED_MISMATCH.

(** The argument of [onVerified]: [{ similarity, confidence }]. *)
Record MatchResult : Type := {
  similarity : float;
  confidence : float
}.

(** [{ ...result, timestamp, studentId }]. *)
Record VerificationResult : Type := {
  result : MatchResult;
  timestamp : string;
  result_studentId : option string
}.

(** The four [useState] cells of the hook. *)
Record Flow : Type := {
  currentStep : VerificationState;
  studentId : option string;
  studentData : option Value;
  verificationResult : option VerificationResult
}.

Definition initialFlow : Flow := {|
  currentStep := SCANNING_ID;
  studentId := None;
  studentData := None;
  verificationResult := None
|}.

(** [if (!student)], [studentData && ...]: whether a value is truthy. *)
Definition isTruthy (v : option Value) : bool :=
  match v with
  | None => false
  | Some (Other truthy) => truthy
  | Some _ => true
  end.

(** A state setter that is handed a function takes it for an updater: React
    calls it on the previous state and stores what it returns.  For the
    built-in functions of [Object.prototype] that is the engine's doing, not
    this program's: [engine property previous] stands for what the call of
    the built-in under [property] on [previous] returns ([None] for [null]
    or [undefined]).  A call that throws takes the application down; no
    render follows it, so whatever state is given for it is seen by
    nothing.  The properties below hold for every engine. *)
Definition Engine : Type := string -> option Value -> option Value.

(** [setStudentData(student)]. *)
Definition setStudentData (engine : Engine) (student : Value) (previous : option Value)
    : option Value :=
  match student with
  | Inherited property =>
      if String.eqb property "__proto__" then Some student
      else engine property previous
  | _ => Some student
  end.

Definition handleIDDetected (STUDENTS : Registry) (engine : Engine) (detectedId : string)
    (s : Flow) : Flow :=
  match getStudentByID STUDENTS detectedId with
  | None =>
      {| currentStep := FAILED_ID;
         studentId := Some detectedId;
         studentData := studentData s;
         verificationResult := verificationResult s |}
  | Some student =>
      {| currentStep := VERIFYING_FACE;
         studentId := Some detectedId;
         studentData := setStudentData engine student (studentData s);
         verificationResult := verificationResult s |}
  end.

(** [now] is the text [new Date().toISOString()] returns at the call. *)
Definition handleFaceVerified (matched : MatchResult) (now : string) (s : Flow) : Flow :=
  {| currentStep := SUCCESS;
     studentId := studentId s;
     studentData := studentData s;
     verificationResult :=
       Some {| result := matched; timestamp := now; result_studentId := studentId s |} |}.

Definition handleFaceFailed (reason : string) (s : Flow) : Flow :=
  {| currentStep := FAILED_FACE;
     studentId := studentId s;
     studentData := studentData s;
     verificationResult := verificationResult s |}.

Definition reset (s : Flow) : Flow :=
  {| currentStep := SCANNING_ID;
     studentId := None;
     studentData := None;
     verificationResult := None |}.

(** One call of one of the four handlers the hook returns. *)
Inductive Operation : Type :=
  | IDDetected (detectedId : string)
  | FaceVerified (matched : MatchResult) (now : string)
  | FaceFailed (reason : string)
  | ResetFlow.

Definition perform (STUDENTS : Registry) (engine : Engine) (op : Operation) (s : Flow)
    : Flow :=
  match op with
  | IDDetected detectedId => handleIDDetected STUDENTS engine detectedId s
  | FaceVerified matched now => handleFaceVerified matched now s
  | FaceFailed reason => handleFaceFailed reason s
  | ResetFlow => reset s
  end.

(** The states any sequence of handler calls leads to. *)
Inductive reachable (STUDENTS : Registry) (engine : Engine) : Flow -> Prop :=
  | reachable_initial : reachable STUDENTS engine initialFlow
  | reachable_perform : forall op s,
      reachable STUDENTS engine s ->
      reachable STUDENTS engine (perform STUDENTS engine op s).

(** [VerificationApp] hands each handler to a component it renders in some
    steps only: the ID scanner while scanning, the face verifier while
    verifying with a student bound, and the success and failure screens
    (which call [reset]) in the terminal steps. *)
Definition rendered (op : Operation) (s : Flow) : bool :=
  match op, currentStep s with
  | IDDetected _, SCANNING_ID => true
  | FaceVerified _ _, VERIFYING_FACE
  | FaceFailed _, VERIFYING_FACE => isTruthy (studentData s)
  | ResetFlow, SUCCESS =>
      match verificationResult s with Some _ => true | None => false end
  | ResetFlow, (FAILED_ID | FAILED_FACE | FAILED_MISMATCH) => true
  | _, _ => false
  end.

(** The ID scanner calls [handleIDDetected] with what [findValidStudentId]
    returns, which is a key of the registry.  [ownOrAbsent] admits more: any
    identifier that the lookup finds among the entries of the registry, or
    does not find at all; it leaves out the names the registry only
    inherits. *)
Definition ownOrAbsent (STUDENTS : Registry) (op : Operation) : bool :=
  match op with
  | IDDetected detectedId =>
      match getStudentByID STUDENTS detectedId with
      | Some (Student _) | None => true
      | Some _ => false
      end
  | _ => true
  end.

(** The states reached when every handler is called by the component that
    [VerificationApp] gives it to, and [handleIDDetected] with an identifier
    as above. *)
Inductive reachableInApp (STUDENTS : Registry) (engine : Engine) : Flow -> Prop :=
  | inApp_initial : reachableInApp STUDENTS engine initialFlow
  | inApp_perform : forall op s,
      reachableInApp STUDENTS engine s ->
      rendered op s = true -> ownOrAbsent STUDENTS op = true ->
      reachableInApp STUDENTS engine (perform STUDENTS engine op s).

(** ** The ID acquisition loop: [useIDScannerLogic] *)

Definition MAX_ATTEMPTS : nat := 60.

(** The refs and state cells the loop writes. [scanInterval] is true while
    [scanIntervalRef.current] holds a timer. *)
Record Scanner : Type := {
  scanCount : nat;
  scanInterval : bool;
  isProcessing : bool;
  scanError : option string;
  scanStatus : string
}.

(** What the awaited recognition of one tick produced. *)
Inductive OcrOutcome : Type :=
  | Recognized (rawText : string)
  | RecognitionThrew.

Definition decimal (n : nat) : string :=
  DecimalString.NilEmpty.string_of_uint (Nat.to_uint n).

Definition startScanning (st : Scanner) : Scanner :=
  {| scanCount := 0;
     scanInterval := true;
     isProcessing := false;
     scanError := scanError st;
     scanStatus := "Scanning for student ID..." |}.

Definition stopScanning (st : Scanner) : Scanner :=
  {| scanCount := scanCount st;
     scanInterval := false;
     isProcessing := false;
     scanError := scanError st;
     scanStatus := scanStatus st |}.

Definition setScanStatus (text : string) (st : Scanner) : Scanner :=
  {| scanCount := scanCount st;
     scanInterval := scanInterval st;
     isProcessing := isProcessing st;
     scanError := scanError st;
     scanStatus := text |}.

Definition setScanError (text : string) (st : Scanner) : Scanner :=
  {| scanCount := scanCount st;
     scanInterval := scanInterval st;
     isProcessing := isProcessing st;
     scanError := Some text;
     scanStatus := scanStatus st |}.

Definition setProcessing (b : bool) (st : Scanner) : Scanner :=
  {| scanCount := scanCount st;
     scanInterval := scanInterval st;
     isProcessing := b;
     scanError := scanError st;
     scanStatus := scanStatus st |}.

Definition countAttempt (st : Scanner) : Scanner :=
  {| scanCount := S (scanCount st);
     scanInterval := scanInterval st;
     isProcessing := isProcessing st;
     scanError := scanError st;
     scanStatus := scanStatus st |}.

(** [if (studentId)]: a string is truthy unless it is empty. *)
Definition truthy (s : option string) : bool :=
  match s with
  | Some (String _ _) => true
  | _ => false
  end.

(** One call of [scanFrame].  [ready] says that the video element, the model
    and the OCR worker are present and the video has data.  The second
    component is the argument of [onIDDetected] when the callback is
    invoked; the hook takes no other callback. *)
Definition scanFrame (validIds : list string) (ready : bool) (outcome : OcrOutcome)
    (st : Scanner) : Scanner * option string :=
  if isProcessing st || negb ready then (st, None)
  else
    let st := setScanStatus "Scanning for ID card..." (setProcessing true st) in
    match outcome with
    | RecognitionThrew => (setProcessing false st, None)
    | Recognized rawText =>
        let found := findValidStudentId validIds rawText in
        if truthy found then
          (setProcessing false (setScanStatus "ID detected!" (stopScanning st)), found)
        else
          let st := countAttempt st in
          let st :=
            setScanStatus
              ("Scanning... (" ++ decimal (scanCount st) ++ "/"
                 ++ decimal MAX_ATTEMPTS ++ ")") st in
          let st :=
            if MAX_ATTEMPTS <=? scanCount st then
              setScanStatus "Scan timeout"
                (setScanError "Could not detect student ID. Please try again."
                   (stopScanning st))
            else st in
          (setProcessing false st, None)
    end.

(** The scanner mounted by [VerificationApp]: its [onIDDetected] is the
    controller's [handleIDDetected]. *)
Record Acquisition : Type := {
  scanner : Scanner;
  flow : Flow
}.

(** One timer tick.  The timer fires only while [scanIntervalRef] holds it. *)
Definition scanTick (STUDENTS : Registry) (engine : Engine) (ready : bool)
    (outcome : OcrOutcome) (sys : Acquisition) : Acquisition :=
  if scanInterval (scanner sys) then
    let '(st, detected) :=
      scanFrame (getAllValidStudentIDs STUDENTS) ready outcome (scanner sys) in
    {| scanner := st;
       flow := match detected with
               | Some detectedId =>
                   handleIDDetected STUDENTS engine detectedId (flow sys)
               | None => flow sys
               end |}
  else sys.

Fixpoint scanTicks (STUDENTS : Registry) (engine : Engine)
    (ticks : list (bool * OcrOutcome)) (sys : Acquisition) : Acquisition :=
  match ticks with
  | [] => sys
  | (ready, outcome) :: rest =>
      scanTicks STUDENTS engine rest (scanTick STUDENTS engine ready outcome sys)
  end.

(** ** The face verification loop: [startFaceDetection] of [useFaceVerification] *)

(** The two copies of the hook differ in their constants and comparator. *)
Record FaceConfig : Type := {
  MATCH_THRESHOLD : float;
  MATCHING_THROTTLE : Z;
  comparator : option (list float) -> option (list float) -> float
}.

(** [src/hooks/useFaceVerification.js]. *)
Definition cosineConfig : FaceConfig := {|
  MATCH_THRESHOLD := 0.5%float;
  MATCHING_THROTTLE := 4000%Z;
  comparator := cosineSimilarity
|}.

(** The documented copy of the hook, which compares by Euclidean distance. *)
Definition distanceConfig : FaceConfig := {|
  MATCH_THRESHOLD := 0.58%float;
  MATCHING_THROTTLE := 6000%Z;
  comparator := faceSimilarity
|}.

(** The status line; [NoMatch s] stands for the text built from the score [s]. *)
Inductive FaceStatus : Type :=
  | Initializing
  | LookingForFace
  | PleaseLookAtCamera
  | VerifyingFace
  | NoMatch (similarity : float)
  | PositionFaceInCenter
  | MultipleFaces.

(** The refs and state cells of the loop.  [detectionInterval] is true while
    [detectionIntervalRef.current] holds a timer; times are the integer
    milliseconds [Date.now()] returns. *)
Record FaceLoop : Type := {
  hasVerified : bool;
  detectionInterval : bool;
  lastDetectionTime : Z;
  referenceDescriptor : option (list float);
  faceStatus : FaceStatus;
  faceDetected : bool;
  similarityScore : option float;
  isVerifying : bool
}.

(** What the loop does to the outside: the spoken announcement and the
    [onVerified] callback. *)
Inductive Effect : Type :=
  | Speak
  | OnVerified (matched : MatchResult).

(** What the awaited detection of one tick produced. *)
Inductive DetectionOutcome : Type :=
  | Detected (detections : list Detection)
  | DetectionThrew.

(** [startFaceDetection()]: nothing happens without a video element and a
    reference descriptor; otherwise the flag is cleared and the timer set. *)
Definition startFaceDetection (video : option float) (st : FaceLoop) : FaceLoop :=
  match video, referenceDescriptor st with
  | Some _, Some _ =>
      {| hasVerified := false;
         detectionInterval := true;
         lastDetectionTime := lastDetectionTime st;
         referenceDescriptor := referenceDescriptor st;
         faceStatus := LookingForFace;
         faceDetected := faceDetected st;
         similarityScore := similarityScore st;
         isVerifying := isVerifying st |}
  | _, _ => st
  end.

(** The first line of the timer callback:
    [if (!videoRef.current || hasVerifiedRef.current) return]. *)
Definition tickProceeds (video : option float) (st : FaceLoop) : bool :=
  match video with
  | None => false
  | Some _ => negb (hasVerified st)
  end.

(** The callback after its [await]: [video] is [videoRef.current] and [now]
    is [Date.now()] at that point. *)
Definition tickBody (cfg : FaceConfig) (video : option float)
    (outcome : DetectionOutcome) (now : Z) (st : FaceLoop) : FaceLoop * list Effect :=
  match outcome with
  | DetectionThrew => (st, [])
  | Detected detections =>
      let shouldMatch := (MATCHING_THROTTLE cfg <=? now - lastDetectionTime st)%Z in
      match detections with
      | [] =>
          ({| hasVerified := hasVerified st;
              detectionInterval := detectionInterval st;
              lastDetectionTime := lastDetectionTime st;
              referenceDescriptor := referenceDescriptor st;
              faceStatus := PleaseLookAtCamera;
              faceDetected := false;
              similarityScore := None;
              isVerifying := isVerifying st |}, [])
      | [detection] =>
          if checkFaceQuality video detection && shouldMatch then
            let currentDescriptor := descriptor detection in
            let similarity :=
              comparator cfg (Some currentDescriptor) (referenceDescriptor st) in
            if PrimFloat.leb (MATCH_THRESHOLD cfg) similarity && negb (hasVerified st) then
              ({| hasVerified := true;
                  detectionInterval := false;
                  lastDetectionTime := now;
                  referenceDescriptor := referenceDescriptor st;
                  faceStatus := VerifyingFace;
                  faceDetected := true;
                  similarityScore := Some similarity;
                  isVerifying := false |},
               [Speak;
                OnVerified {| similarity := similarity;
                              confidence := score detection |}])
            else
              ({| hasVerified := hasVerified st;
                  detectionInterval := detectionInterval st;
                  lastDetectionTime := now;
                  referenceDescriptor := referenceDescriptor st;
                  faceStatus :=
                    if PrimFloat.ltb similarity (MATCH_THRESHOLD cfg)
                    then NoMatch similarity else VerifyingFace;
                  faceDetected := true;
                  similarityScore := Some similarity;
                  isVerifying := false |}, [])
          else
            ({| hasVerified := hasVerified st;
                detectionInterval := detectionInterval st;
                lastDetectionTime := lastDetectionTime st;
                referenceDescriptor := referenceDescriptor st;
                faceStatus := PositionFaceInCenter;
                faceDetected := true;
                similarityScore := similarityScore st;
                isVerifying := isVerifying st |}, [])
      | _ :: _ :: _ =>
          ({| hasVerified := hasVerified st;
              detectionInterval := detectionInterval st;
              lastDetectionTime := lastDetectionTime st;
              referenceDescriptor := referenceDescriptor st;
              faceStatus := MultipleFaces;
              faceDetected := false;
              similarityScore := similarityScore st;
              isVerifying := isVerifying st |}, [])
      end
  end.

(** One arrival at the loop.  A [Tick] is a timer callback run from its first
    line; a [Resumption] is the rest of a callback that passed its first line
    earlier and was still awaiting the detector. *)
Inductive Arrival : Type :=
  | Tick (video : option float) (outcome : DetectionOutcome) (now : Z)
  | Resumption (video : option float) (outcome : DetectionOutcome) (now : Z).

Definition arrive (cfg : FaceConfig) (a : Arrival) (st : FaceLoop) : FaceLoop * list Effect :=
  match a with
  | Tick video outcome now =>
      if tickProceeds video st then tickBody cfg video outcome now st else (st, [])
  | Resumption video outcome now => tickBody cfg video outcome now st
  end.

(** The face verifier mounted by [VerificationApp]: its [onVerified] is the
    controller's [handleFaceVerified]. *)
Record Verification : Type := {
  faceLoop : FaceLoop;
  session : Flow
}.

Fixpoint deliver (effects : list Effect) (clock : string) (s : Flow) : Flow :=
  match effects with
  | [] => s
  | Speak :: rest => deliver rest clock s
  | OnVerified matched :: rest => deliver rest clock (handleFaceVerified matched clock s)
  end.

(** An arrival together with the text of the wall clock at that moment. *)
Definition verificationStep (cfg : FaceConfig) (a : Arrival * string)
    (sys : Verification) : Verification :=
  let '(st, effects) := arrive cfg (fst a) (faceLoop sys) in
  {| faceLoop := st; session := deliver effects (snd a) (session sys) |}.

Fixpoint verificationSteps (cfg : FaceConfig) (arrivals : list (Arrival * string))
    (sys : Verification) : Verification :=
  match arrivals with
  | [] => sys
  | a :: rest => verificationSteps cfg rest (verificationStep cfg a sys)
  end.

(** How many times [onVerified] is called along a run of the loop. *)
Definition verifiedCalls (effects : list Effect) : nat :=
  List.length (filter (fun e => match e with OnVerified _ => true | Speak => false end) effects).

Fixpoint arrivals (cfg : FaceConfig) (l : list Arrival) (st : FaceLoop)
    : FaceLoop * list Effect :=
  match l with
  | [] => (st, [])
  | a :: rest =>
      let '(st1, e1) := arrive cfg a st in
      let '(st2, e2) := arrivals cfg rest st1 in
      (st2, e1 ++ e2)
  end.

(* ================================================================== *)
(** * Part I, continued: more of the program                           *)
(* ================================================================== *)

(** ** [cleanOcrText] of [useIDScannerLogic] *)

Section CleanOcrText.

Local Open Scope string_scope.

(** Membership in a character class [[...]], given by its characters. *)
Fixpoint inClass (chars : string) (c : ascii) : bool :=
  match chars with
  | EmptyString => false
  | String d rest => Ascii.eqb c d || inClass rest c
  end.

(** [s.replace(/[...]/g, replacement)] for a class of single characters. *)
Fixpoint replaceAll (matches : ascii -> bool) (replacement : string) (s : string) : string :=
  match s with
  | EmptyString => EmptyString
  | String c rest =>
      if matches c then replacement ++ replaceAll matches replacement rest
      else String c (replaceAll matches replacement rest)
  end.

(** The chain of nine [replace] calls, in the order of the source. *)
Definition cleanOcrText (text : string) : string :=
  replaceAll (fun c => negb (Str.isDigit c)) ""
   (replaceAll (inClass "Tt+") "7"
     (replaceAll (inClass "Aa@") "4"
       (replaceAll (inClass "Gg&") "9"
         (replaceAll (inClass "Bb") "8"
           (replaceAll (inClass "Zz") "2"
             (replaceAll (inClass "Ss$") "5"
               (replaceAll (inClass "IlL|!") "1"
                 (replaceAll (inClass "Oo") "0" text)))))))).

End CleanOcrText.

(** ** The callbacks of a whole scan *)

(** The timer callbacks of a scan, one after the other, together with the
    arguments [onIDDetected] was called with.  Once [scanIntervalRef] is
    cleared no further callback runs. *)
Fixpoint scanRun (validIds : list string) (ticks : list (bool * OcrOutcome))
    (st : Scanner) : Scanner * list string :=
  match ticks with
  | [] => (st, [])
  | (ready, outcome) :: rest =>
      if scanInterval st then
        let '(st1, detected) := scanFrame validIds ready outcome st in
        let '(st2, reported) := scanRun validIds rest st1 in
        (st2, match detected with
              | Some detectedId => detectedId :: reported
              | None => reported
              end)
      else (st, [])
  end.

(** ** What [VerificationApp] renders *)

(** The child components of [VerificationApp], with the props that come from
    the flow (the progress indicator, always rendered, is apart). *)
Inductive Screen : Type :=
  | IDScannerScreen
  | FaceVerifierScreen (shownId : option string) (shownStudent : option Value)
  | SuccessScreen (shownStudent : option Value) (shown : VerificationResult)
  | FailureScreen (failureType : VerificationState) (shownId : option string).

(** The four conditional blocks of the component, in their order. *)
Definition VerificationApp (s : Flow) : list Screen :=
  (match currentStep s with
   | SCANNING_ID => [IDScannerScreen]
   | _ => []
   end)
  ++ (match currentStep s, isTruthy (studentData s) with
      | VERIFYING_FACE, true => [FaceVerifierScreen (studentId s) (studentData s)]
      | _, _ => []
      end)
  ++ (match currentStep s, verificationResult s with
      | SUCCESS, Some shown => [SuccessScreen (studentData s) shown]
      | _, _ => []
      end)
  ++ (match currentStep s with
      | FAILED_ID | FAILED_FACE | FAILED_MISMATCH =>
          [FailureScreen (currentStep s) (studentId s)]
      | _ => []
      end).

(** ** [getStepStatus] of the progress indicator *)

Section ProgressIndicator.

Local Open Scope string_scope.

(** The values of [VERIFICATION_STATES]. *)
Definition stateName (step : VerificationState) : string :=
  match step with
  | SCANNING_ID => "scanning_id"
  | VERIFYING_FACE => "verifying_face"
  | SUCCESS => "success"
  | FAILED_ID => "failed_id"
  | FAILED_FACE => "failed_face"
  | FAILED_MISMATCH => "failed_mismatch"
  end.

Definition stepOrder : list string := ["scanning_id"; "verifying_face"; "success"].

(** [array.indexOf(x)]: the first position of [x], or -1. *)
Fixpoint indexOf (array : list string) (x : string) : Z :=
  match array with
  | [] => (-1)%Z
  | y :: rest =>
      if String.eqb y x then 0%Z
      else match indexOf rest x with
           | Zneg _ => (-1)%Z
           | i => (i + 1)%Z
           end
  end.

Definition getStepStatus (currentStep stepId : string) : string :=
  let currentIndex := indexOf stepOrder currentStep in
  let stepIndex := indexOf stepOrder stepId in
  if Str.startsWith currentStep "failed" then "error"
  else if (stepIndex <? currentIndex)%Z then "completed"
  else if (stepIndex =? currentIndex)%Z then "active"
  else "pending".

End ProgressIndicator.

(** ** [preprocessImage] of [useIDScannerLogic] *)

Section PreprocessImage.

Local Open Scope float_scope.

(** An element of the [Uint8ClampedArray], an integer from 0 to 255, read as
    a number. *)
Definition channel (value : Z) : float :=
  PrimFloat.of_uint63 (Uint63.of_Z value).

(** [data[i] * 0.299 + data[i + 1] * 0.587 + data[i + 2] * 0.114]. *)
Definition grayLevel (r g b : Z) : float :=
  channel r * 0.299 + channel g * 0.587 + channel b * 0.114.

(** [gray > threshold ? 255 : 0], with [threshold = 128]. *)
Definition binarize (gray : float) : Z :=
  if 128 <? gray then 255%Z else 0%Z.

(** The loop [for (let i = 0; i < data.length; i += 4)] over the pixel
    bytes: red, green and blue are overwritten, alpha is not touched.  Image
    data always holds whole pixels; at a truncated last pixel a missing
    green or blue byte reads as [undefined], the gray level is NaN and the
    bytes that exist are written 0. *)
Fixpoint preprocessPixels (data : list Z) : list Z :=
  match data with
  | r :: g :: b :: a :: rest =>
      let value := binarize (grayLevel r g b) in
      value :: value :: value :: a :: preprocessPixels rest
  | [r; g; b] =>
      let value := binarize (grayLevel r g b) in [value; value; value]
  | [r; g] => [0%Z; 0%Z]
  | [r] => [0%Z]
  | [] => []
  end.

(** [preprocessImage(ctx, width, height)] on the bytes of the canvas.
    [readable] is false when [getImageData] throws; the exception is caught
    and the canvas is left as it was. *)
Definition preprocessImage (canvas : list Z) (readable : bool) : list Z :=
  if readable then preprocessPixels canvas else canvas.

End PreprocessImage.

(** ** The best match of the fingerprint page *)

(** An entry of [referenceFaces]: [{ name, url, descriptor }]. *)
Record ReferenceFace : Type := {
  face_name : string;
  face_url : string;
  face_descriptor : list float
}.

Section BestMatch.

Local Open Scope float_scope.

(** The loop over the reference faces, from the values [bestSim] and
    [bestFace] have on entry:
    [const sim = cosineSimilarity(currentDescriptor, face.descriptor);
     if (sim > bestSim) { bestSim = sim; bestFace = face; }]. *)
Fixpoint bestMatchFrom (currentDescriptor : list float) (referenceFaces : list ReferenceFace)
    (bestSim : float) (bestFace : option ReferenceFace) : float * option ReferenceFace :=
  match referenceFaces with
  | [] => (bestSim, bestFace)
  | face :: rest =>
      let sim := cosineSimilarity (Some currentDescriptor) (Some (face_descriptor face)) in
      if bestSim <? sim then bestMatchFrom currentDescriptor rest sim (Some face)
      else bestMatchFrom currentDescriptor rest bestSim bestFace
  end.

(** [let bestSim = -1; let bestFace = null;] and the loop. *)
Definition bestMatch (currentDescriptor : list float) (referenceFaces : list ReferenceFace)
    : float * option ReferenceFace :=
  bestMatchFrom currentDescriptor referenceFaces (-1) None.

(** Whether the page announces a match, in the copy of the page that reads
    [referenceFacesRef.current] and [hasVerifiedRef.current] (the second in
    the file):
    [if (bestFace && isMounted) { ... if (bestSim >= threshold &&
    !hasVerifiedRef.current) ...], with [threshold = 0.5].
    [referenceFaces] and [hasVerified] are what the refs hold when the
    callback runs, which effects keep equal to the state.  The first copy
    reads the state variables themselves, from a callback that an effect
    without dependencies creates once: there they are for ever the first
    render's, no reference face and not verified, and this block is never
    reached. *)
Definition matchFound (currentDescriptor : list float) (referenceFaces : list ReferenceFace)
    (isMounted hasVerified : bool) : bool :=
  let '(bestSim, bestFace) := bestMatch currentDescriptor referenceFaces in
  match bestFace with
  | Some _ =>
      if isMounted then
        let threshold := 0.5 in
        (threshold <=? bestSim) && negb hasVerified
      else false
  | None => false
  end.

End BestMatch.

(* ================================================================== *)
(** * Part II: the vocabulary of the properties, and sample data       *)
(* ================================================================== *)

Section Vocabulary.

Local Open Scope string_scope.

(** [v] occurs in [s] as a contiguous substring. *)
Definition occursIn (v s : string) : Prop :=
  exists before after, s = before ++ v ++ after.

(** [v] is the first element of [l], in the order of [l], with property [P]. *)
Definition firstSuch (P : string -> Prop) (l : list string) (v : string) : Prop :=
  exists earlier later,
    l = (earlier ++ v :: later)%list /\ P v /\ forall u, In u earlier -> ~ P u.

(** A text from which the scanner reconciles no identifier. *)
Definition unreadable (STUDENTS : Registry) (rawText : string) : Prop :=
  truthy (findValidStudentId (getAllValidStudentIDs STUDENTS) rawText) = false.

(** A tick that cannot succeed: whatever text it recognizes is unreadable. *)
Definition failingTick (STUDENTS : Registry) (tick : bool * OcrOutcome) : Prop :=
  match snd tick with
  | Recognized rawText => unreadable STUDENTS rawText
  | RecognitionThrew => True
  end.

(** The attempts among some ticks: the calls that got past the first test
    and whose recognition returned a text. *)
Definition attempts (ticks : list (bool * OcrOutcome)) : nat :=
  List.length
    (filter (fun tick => match tick with
                         | (true, Recognized _) => true
                         | _ => false
                         end) ticks).

Definition timeoutMessage : string := "Could not detect student ID. Please try again.".

(** The registry of the student database service. *)
Definition janeSmith : StudentRecord := {|
  id := "2201547";
  name := "Jane Smith";
  department := "Engineering";
  year := "Senior";
  faceImage := "/uploads/jungkok.jpg";
  email := "jane.smith@university.edu"
|}.

Definition johnPaul : StudentRecord := {|
  id := "2201521";
  name := "John Paul";
  department := "Computer Science";
  year := "Junior";
  faceImage := "/uploads/mememe.jpg";
  email := "john.doe@university.edu"
|}.

Definition studentDatabase : Registry :=
  [("2201521", johnPaul); ("2201547", janeSmith)].

(** The examples look up registered or unknown identifiers, never a name
    the registry only inherits: no built-in is called in them and any engine
    serves.  This one answers [null] to every call. *)
Definition quietEngine : Engine := fun _ _ => None.

(** The handlers called one after the other. *)
Definition performAll (STUDENTS : Registry) (engine : Engine) (ops : list Operation)
    (s : Flow) : Flow :=
  fold_left (fun s op => perform STUDENTS engine op s) ops s.

(** A scanner that has finished initializing, and sixty frames without a digit. *)
Definition idleScanner : Scanner := {|
  scanCount := 0;
  scanInterval := false;
  isProcessing := false;
  scanError := None;
  scanStatus := "Ready to scan"
|}.

Definition blankFrames : list string := repeat "no digits in this frame" MAX_ATTEMPTS.

End Vocabulary.

Section NumericVocabulary.

Local Open Scope float_scope.

(** The sum of squares [normA] (or [normB]) that the loop accumulates. *)
Definition squaredNorm (v : list float) : float :=
  fold_left (fun s x => s + x * x) v 0.

(** Every component is zero, of either sign. *)
Definition allZero (v : list float) : Prop :=
  Forall (fun x => (x =? 0) = true) v.

(** A confident, centred, mid-sized face in a 640 pixel wide frame, and a
    loop that has just been started with that face as its reference. *)
Definition centredFace : Detection := {|
  score := 0.9;
  box := {| box_x := 220; box_y := 100; box_width := 200; box_height := 240 |};
  descriptor := [0.1; 0.2; 0.3]
|}.

Definition startedLoop : FaceLoop :=
  startFaceDetection (Some 640)
    {| hasVerified := false;
       detectionInterval := false;
       lastDetectionTime := 0;
       referenceDescriptor := Some [0.1; 0.2; 0.3];
       faceStatus := Initializing;
       faceDetected := false;
       similarityScore := None;
       isVerifying := false |}.

End NumericVocabulary.

(** A double together with the divisions that were performed to compute
    it, each as its dividend and its divisor, in the order they were
    performed.  Running a comparator on such numbers shows which divisions
    it performs. *)
Record Traced : Type := {
  traced_value : float;
  traced_divisions : list (float * float)
}.

Definition untraced (x : float) : Traced :=
  {| traced_value := x; traced_divisions := [] |}.

Definition tracedBinary (operation : float -> float -> float) (x y : Traced) : Traced :=
  {| traced_value := operation (traced_value x) (traced_value y);
     traced_divisions := traced_divisions x ++ traced_divisions y |}.

#[export] Instance traced_arith : JsArith Traced := {|
  num_zero := untraced 0%float;
  num_one := untraced 1%float;
  num_two := untraced 2%float;
  num_add := tracedBinary PrimFloat.add;
  num_sub := tracedBinary PrimFloat.sub;
  num_mul := tracedBinary PrimFloat.mul;
  num_div := fun x y =>
    {| traced_value := PrimFloat.div (traced_value x) (traced_value y);
       traced_divisions :=
         traced_divisions x ++ traced_divisions y
           ++ [(traced_value x, traced_value y)] |};
  num_sqrt := fun x =>
    {| traced_value := PrimFloat.sqrt (traced_value x);
       traced_divisions := traced_divisions x |};
  num_max := tracedBinary Math_max;
  num_is_zero := fun x => PrimFloat.eqb (traced_value x) 0%float
|}.

Section ExactVocabulary.

Local Open Scope R_scope.

(** The three checks of the quality gate on exact numbers: a confidence of
    at least 0.5, a centre of the box at most 0.35 of the frame width from
    the centre of the frame, and a width of the box between 0.15 and 0.85 of
    the frame width. *)
Definition checksOnExactNumbers (confidence videoWidth x width : R) : Prop :=
  0.5 <= confidence /\
  Rabs (x + width / 2 - videoWidth / 2) <= 0.35 * videoWidth /\
  0.15 * videoWidth <= width <= 0.85 * videoWidth.

End ExactVocabulary.

Section FurtherVocabulary.

(** Every character of [s] is a digit. *)
Definition allDigits (s : string) : Prop :=
  Forall (fun c => Str.isDigit c = true) (list_ascii_of_string s).

(** The products of every 8-bit channel value and a weight: with the weight
    in thousandths as machine integers, and with the weight as the double of
    the source. *)
Definition weighted (wi : PrimInt63.int) (wf : float) : list (PrimInt63.int * float) :=
  map (fun value : Z =>
         (Uint63.mul wi (Uint63.of_Z value), PrimFloat.mul (channel value) wf))
      (map Z.of_nat (seq 0 256)).

(** Whether, for every colour made of the three tables, the sum of the
    doubles is above 128 exactly when the sum of the integers is above
    [limit]. *)
Definition agreesOn (limit : PrimInt63.int)
    (reds greens blues : list (PrimInt63.int * float)) : bool :=
  forallb (fun red =>
    forallb (fun green =>
      forallb (fun blue =>
        Bool.eqb
          (PrimFloat.ltb 128 (PrimFloat.add (PrimFloat.add (snd red) (snd green)) (snd blue)))
          (Uint63.ltb limit
             (Uint63.add (Uint63.add (fst red) (fst green)) (fst blue))))
        blues)
      greens)
    reds.

End FurtherVocabulary.

(* ================================================================== *)
(** * Part III: properties                                             *)
(* ================================================================== *)

(** ** Text reconciliation *)

Section Reconciliation.

Local Open Scope string_scope.

Lemma append_empty_r (s : string) : s ++ "" = s.
Proof. induction s as [|c s IH]; simpl; [reflexivity | now rewrite IH]. Qed.

Lemma append_assoc (s t u : string) : (s ++ t) ++ u = s ++ (t ++ u).
Proof. induction s as [|c s IH]; simpl; [reflexivity | now rewrite IH]. Qed.

Lemma append_length (s t : string) :
  String.length (s ++ t) = String.length s + String.length t.
Proof. induction s as [|c s IH]; simpl; [reflexivity | now rewrite IH]. Qed.

Lemma startsWith_iff (s v : string) :
  Str.startsWith s v = true <-> exists after, s = v ++ after.
Proof.
  revert s; induction v as [|a v IH]; intros s.
  - split; [intros _; now exists s | intros _; now destruct s].
  - destruct s as [|b s]; simpl.
    + split; [discriminate | intros [after H]; discriminate].
    + rewrite andb_true_iff, Ascii.eqb_eq, IH. split.
      * intros [-> [after ->]]. now exists after.
      * intros [after H]. injection H as -> ->. split; [reflexivity | now exists after].
Qed.

Lemma includes_iff (s v : string) : Str.includes s v = true <-> occursIn v s.
Proof.
  unfold occursIn. induction s as [|c s IH].
  - cbn [Str.includes]. rewrite orb_false_r, startsWith_iff. split.
    + intros [after H]. now exists "", after.
    + intros [before [after H]]. destruct before; [now exists after | discriminate].
  - cbn [Str.includes]. rewrite orb_true_iff, startsWith_iff, IH. split.
    + intros [[after H] | [before [after H]]].
      * now exists "", after.
      * exists (String c before), after. simpl. now rewrite H.
    + intros [[|b before] [after H]].
      * left. now exists after.
      * right. simpl in H. injection H as -> ->. now exists before, after.
Qed.

Lemma arrayIncludes_iff (l : list string) (c : string) :
  arrayIncludes l c = true <-> In c l.
Proof.
  unfold arrayIncludes. rewrite existsb_exists. split.
  - intros [x [Hin Heq]]. apply String.eqb_eq in Heq. now subst.
  - intros Hin. exists c. split; [assumption | apply String.eqb_refl].
Qed.

(** A window that fits in [s] has the requested length and occurs in [s]. *)
Lemma substring_fits (i n : nat) (s : string) :
  i + n <= String.length s ->
  exists before after,
    s = before ++ String.substring i n s ++ after /\
    String.length before = i /\
    String.length (String.substring i n s) = n.
Proof.
  revert s n; induction i as [|i IH]; intros s n Hlen.
  - exists "". revert s Hlen; induction n as [|n IHn]; intros s Hlen.
    + exists s. destruct s; simpl; auto.
    + destruct s as [|c s]; simpl in Hlen; [lia|].
      destruct (IHn s ltac:(lia)) as [after [H1 [_ H3]]].
      exists after. simpl in *. rewrite <- H1, H3. auto.
  - destruct s as [|c s]; simpl in Hlen; [lia|].
    destruct (IH s n ltac:(lia)) as [before [after [H1 [H2 H3]]]].
    exists (String c before), after. simpl. rewrite <- H1, H2, H3. auto.
Qed.

Lemma window_occurs (i : nat) (s : string) :
  i + 7 <= String.length s -> occursIn (Str.substring i (i + 7) s) s.
Proof.
  intros H. unfold Str.substring. replace (i + 7 - i) with 7 by lia.
  destruct (substring_fits i 7 s H) as [before [after [E _]]].
  now exists before, after.
Qed.

Lemma exactMatch_none (D : string) (l : list string) :
  exactMatch D l = None <-> forall u, In u l -> ~ occursIn u D.
Proof.
  induction l as [|v l IH]; simpl.
  - split; [intros _ u [] | reflexivity].
  - destruct (Str.includes D v) eqn:E.
    + split; [discriminate|]. intros H. exfalso.
      apply (H v); [now left | now apply includes_iff].
    + rewrite IH. split.
      * intros H u [<- | Hin]; [|now apply H].
        rewrite <- includes_iff. congruence.
      * intros H u Hin. apply H. now right.
Qed.

Lemma exactMatch_some (D : string) (l : list string) (v : string) :
  exactMatch D l = Some v <-> firstSuch (fun u => occursIn u D) l v.
Proof.
  unfold firstSuch. induction l as [|w l IH]; simpl.
  - split; [discriminate|]. intros [[|? ?] [later [H _]]]; discriminate.
  - destruct (Str.includes D w) eqn:E.
    + split.
      * intros [= <-]. exists []%list, l. simpl.
        split; [reflexivity | split; [now apply includes_iff | intros u []]].
      * intros [[|x earlier] [later [H [Hv Hnot]]]]; simpl in H.
        -- now injection H as -> _.
        -- injection H as -> _. exfalso.
           apply (Hnot x); [now left | now apply includes_iff].
    + rewrite IH. split.
      * intros [earlier [later [-> [Hv Hnot]]]].
        exists (w :: earlier)%list, later. simpl.
        split; [reflexivity | split; [assumption|]].
        intros u [<- | Hin]; [|now apply Hnot].
        rewrite <- includes_iff. congruence.
      * intros [[|x earlier] [later [H [Hv Hnot]]]]; simpl in H.
        -- injection H as -> _. apply includes_iff in Hv. congruence.
        -- injection H as -> ->. exists earlier, later.
           split; [reflexivity | split; [assumption|]].
           intros u Hin. apply Hnot. now right.
Qed.

Lemma slidingWindow_none (D : string) (l : list string) (n i : nat) :
  slidingWindow D l n i = None <->
  forall j, i <= j < i + n -> ~ In (Str.substring j (j + 7) D) l.
Proof.
  revert i; induction n as [|n IH]; intros i; simpl.
  - split; [intros _ j Hj; lia | reflexivity].
  - destruct (arrayIncludes l (Str.substring i (i + 7) D)) eqn:E.
    + split; [discriminate|]. intros H. exfalso.
      apply (H i); [lia | now apply arrayIncludes_iff].
    + rewrite IH. split.
      * intros H j Hj. destruct (Nat.eq_dec j i) as [-> | Hne].
        -- rewrite <- arrayIncludes_iff. congruence.
        -- apply H. lia.
      * intros H j Hj. apply H. lia.
Qed.

Lemma slidingWindow_some (D : string) (l : list string) (n i : nat) (c : string) :
  slidingWindow D l n i = Some c <->
  exists j, i <= j < i + n /\ c = Str.substring j (j + 7) D /\ In c l /\
            forall k, i <= k < j -> ~ In (Str.substring k (k + 7) D) l.
Proof.
  revert i; induction n as [|n IH]; intros i; simpl.
  - split; [discriminate | intros [j [Hj _]]; lia].
  - destruct (arrayIncludes l (Str.substring i (i + 7) D)) eqn:E.
    + split.
      * intros [= <-]. exists i. split; [lia|]. split; [reflexivity|].
        split; [now apply arrayIncludes_iff | intros k Hk; lia].
      * intros [j [Hj [-> [Hin Hmin]]]].
        destruct (Nat.eq_dec j i) as [-> | Hne]; [reflexivity|]. exfalso.
        apply (Hmin i); [lia | now apply arrayIncludes_iff].
    + rewrite IH. split.
      * intros [j [Hj [-> [Hin Hmin]]]]. exists j. split; [lia|].
        split; [reflexivity | split; [assumption|]].
        intros k Hk. destruct (Nat.eq_dec k i) as [-> | Hne].
        -- rewrite <- arrayIncludes_iff. congruence.
        -- apply Hmin. lia.
      * intros [j [Hj [-> [Hin Hmin]]]].
        assert (j <> i).
        { intros ->. apply arrayIncludes_iff in Hin. congruence. }
        exists j. split; [lia|]. split; [reflexivity | split; [assumption|]].
        intros k Hk. apply Hmin. lia.
Qed.

(** [stripNonDigits] keeps exactly the digit characters, in order. *)
Lemma stripNonDigits_filter (text : string) :
  Str.stripNonDigits text =
  string_of_list_ascii (filter Str.isDigit (list_ascii_of_string text)).
Proof.
  induction text as [|c text IH]; simpl; [reflexivity|].
  destruct (Str.isDigit c); simpl; now rewrite IH.
Qed.

End Reconciliation.

Section ReconciliationClaims.

Local Open Scope string_scope.

(** The three stages never disagree: a window of the digit string that is a
    valid identifier occurs in the digit string, so the first loop has
    already returned by the time the later stages could succeed. *)
Lemma later_stages_unreachable (validIds : list string) (D : string) :
  exactMatch D validIds = None ->
  7 <= String.length D ->
  slidingWindow D validIds (String.length D - 7 + 1) 0 = None /\
  arrayIncludes validIds (Str.substring 0 7 D) = false.
Proof.
  intros Hnone Hlen. rewrite exactMatch_none in Hnone.
  assert (W : forall j, j + 7 <= String.length D ->
                        ~ In (Str.substring j (j + 7) D) validIds).
  { intros j Hj Hin. exact (Hnone _ Hin (window_occurs j D Hj)). }
  split.
  - apply slidingWindow_none. intros j Hj. apply W. lia.
  - destruct (arrayIncludes validIds (Str.substring 0 7 D)) eqn:E; [|reflexivity].
    exfalso. apply arrayIncludes_iff in E. apply (W 0); [lia | exact E].
Qed.

(** C1.  [findValidStudentId] strips the text to its digit characters [D]
    and then decides in strict priority order: the first identifier of the
    valid list that occurs in [D]; failing that, when [D] has at least seven
    characters, the leftmost seven-character window of [D] that is a valid
    identifier; failing that, the first seven characters of [D] if they are
    valid; otherwise no identifier. *)
Theorem findValidStudentId_priority_order (validIds : list string) (text : string) :
  let D := Str.stripNonDigits text in
  let window := fun i => Str.substring i (i + 7) D in
  let noExact := forall u, In u validIds -> ~ occursIn u D in
  let noWindow := forall i, i + 7 <= String.length D -> ~ In (window i) validIds in
  D = string_of_list_ascii (filter Str.isDigit (list_ascii_of_string text)) /\
  (forall v, firstSuch (fun u => occursIn u D) validIds v ->
             findValidStudentId validIds text = Some v) /\
  (noExact -> 7 <= String.length D ->
   forall i, i + 7 <= String.length D -> In (window i) validIds ->
             (forall j, j < i -> ~ In (window j) validIds) ->
             findValidStudentId validIds text = Some (window i)) /\
  (noExact -> 7 <= String.length D -> noWindow ->
   In (Str.substring 0 7 D) validIds ->
   findValidStudentId validIds text = Some (Str.substring 0 7 D)) /\
  (noExact ->
   String.length D < 7 \/ (noWindow /\ ~ In (Str.substring 0 7 D) validIds) ->
   findValidStudentId validIds text = None).
Proof.
  cbv zeta. unfold findValidStudentId.
  set (D := Str.stripNonDigits text).
  split; [apply stripNonDigits_filter|].
  split; [|split; [|split]].
  - intros v Hv. apply exactMatch_some in Hv. now rewrite Hv.
  - intros Hno Hlen i Hi Hin Hmin.
    apply exactMatch_none in Hno. rewrite Hno.
    rewrite (proj2 (Nat.leb_le _ _) Hlen).
    assert (S : slidingWindow D validIds (String.length D - 7 + 1) 0
                = Some (Str.substring i (i + 7) D)).
    { apply slidingWindow_some. exists i. split; [lia|].
      split; [reflexivity | split; [assumption|]].
      intros k Hk. apply Hmin. lia. }
    now rewrite S.
  - intros Hno Hlen Hwin Hin.
    apply exactMatch_none in Hno. rewrite Hno.
    rewrite (proj2 (Nat.leb_le _ _) Hlen).
    assert (S : slidingWindow D validIds (String.length D - 7 + 1) 0 = None).
    { apply slidingWindow_none. intros j Hj. apply Hwin. lia. }
    rewrite S. apply arrayIncludes_iff in Hin. now rewrite Hin.
  - intros Hno Hcases.
    apply exactMatch_none in Hno. rewrite Hno.
    destruct Hcases as [Hshort | [Hwin Hfirst]].
    + apply Nat.leb_gt in Hshort. now rewrite Hshort.
    + destruct (7 <=? String.length D)%nat eqn:L; [|reflexivity].
      apply Nat.leb_le in L.
      assert (S : slidingWindow D validIds (String.length D - 7 + 1) 0 = None).
      { apply slidingWindow_none. intros j Hj. apply Hwin. lia. }
      rewrite S.
      destruct (arrayIncludes validIds (Str.substring 0 7 D)) eqn:E; [|reflexivity].
      apply arrayIncludes_iff in E. contradiction.
Qed.

(** The design document's examples of reconciliation. *)
Example reconcile_noisy_text :
  findValidStudentId ["2201521"; "2201547"] "ID: 2201547 CARD" = Some "2201547".
Proof. reflexivity. Qed.

Example reconcile_inside_digits :
  findValidStudentId ["2201547"] "99220154733" = Some "2201547".
Proof. reflexivity. Qed.

Example reconcile_too_short :
  findValidStudentId ["2201547"] "12345" = None.
Proof. reflexivity. Qed.

Example reconcile_prefers_list_order :
  findValidStudentId ["2201521"; "2201547"] "2201547 / 2201521" = Some "2201521".
Proof. reflexivity. Qed.



End ReconciliationClaims.

(** ** The verification flow controller *)

Section FlowClaims.

Local Open Scope string_scope.

Variable STUDENTS : Registry.
Variable engine : Engine.

(** C9.  [FAILED_MISMATCH] is declared but never entered: no sequence of
    calls of [handleIDDetected], [handleFaceVerified], [handleFaceFailed]
    and [reset] from the initial state sets the current step to it. *)
Theorem failed_mismatch_unreachable (s : Flow) :
  reachable STUDENTS engine s -> currentStep s <> FAILED_MISMATCH.
Proof.
  induction 1 as [|op s Hs IH].
  - discriminate.
  - destruct op; simpl; try discriminate.
    unfold handleIDDetected.
    destruct (getStudentByID STUDENTS detectedId); discriminate.
Qed.

(** A lookup that is not of an inherited name gives an entry or nothing. *)
Lemma ownOrAbsent_lookup (detectedId : string) :
  ownOrAbsent STUDENTS (IDDetected detectedId) = true ->
  (exists student, getStudentByID STUDENTS detectedId = Some (Student student)) \/
  getStudentByID STUDENTS detectedId = None.
Proof.
  unfold ownOrAbsent.
  destruct (getStudentByID STUDENTS detectedId) as [[student|property|truthy]|];
    try discriminate; intros _; [left; now exists student | now right].
Qed.

(** While the application is scanning, nothing is bound to the session. *)
Lemma scanning_session_is_empty (s : Flow) :
  reachableInApp STUDENTS engine s ->
  currentStep s = SCANNING_ID -> studentId s = None /\ studentData s = None.
Proof.
  induction 1 as [|op s Hs IH Hr Ho]; [now split|].
  destruct op; simpl; try discriminate; [|now split].
  unfold handleIDDetected.
  destruct (getStudentByID STUDENTS detectedId); discriminate.
Qed.

(** C4, as the code has it.  In every state reachable by any sequence of
    handler calls, a bound student record comes with a bound identifier.
    When every handler is called by the component the application gives it
    to, and [handleIDDetected] with an identifier that is an entry of the
    registry or is found nowhere, the bound identifier is moreover the one
    whose lookup produced the record. *)
Theorem matched_record_has_identifier (s : Flow) :
  (reachable STUDENTS engine s ->
   forall student, studentData s = Some student ->
                   exists detectedId, studentId s = Some detectedId) /\
  (reachableInApp STUDENTS engine s ->
   forall student, studentData s = Some student ->
                   exists detectedId, studentId s = Some detectedId /\
                                      getStudentByID STUDENTS detectedId = Some student).
Proof.
  split.
  - induction 1 as [|op s Hs IH]; [discriminate|].
    destruct op; simpl; try assumption; [|discriminate].
    unfold handleIDDetected.
    destruct (getStudentByID STUDENTS detectedId); simpl;
      intros student _; now exists detectedId.
  - induction 1 as [|op s Hs IH Hr Ho]; [discriminate|].
    destruct op; simpl; try assumption; [|discriminate].
    unfold rendered in Hr.
    destruct (currentStep s) eqn:Hstep; try discriminate.
    destruct (scanning_session_is_empty Hs Hstep) as [_ Hdata].
    unfold handleIDDetected.
    destruct (ownOrAbsent_lookup _ Ho) as [[found L] | L]; rewrite L; simpl.
    + intros student [= <-]. now exists detectedId.
    + rewrite Hdata. discriminate.
Qed.

End FlowClaims.

Section FlowExamples.

Local Open Scope string_scope.

Lemma failed_mismatch_unreachable_witness :
  reachable studentDatabase quietEngine
    (perform studentDatabase quietEngine (FaceFailed "timeout")
       (perform studentDatabase quietEngine (IDDetected "2201547") initialFlow)) /\
  currentStep
    (perform studentDatabase quietEngine (FaceFailed "timeout")
       (perform studentDatabase quietEngine (IDDetected "2201547") initialFlow))
  <> FAILED_MISMATCH.
Proof.
  assert (H : reachable studentDatabase quietEngine
                (perform studentDatabase quietEngine (FaceFailed "timeout")
                   (perform studentDatabase quietEngine (IDDetected "2201547")
                      initialFlow))).
  { do 2 apply reachable_perform. apply reachable_initial. }
  split; [exact H | exact (failed_mismatch_unreachable H)].
Defined.

(** C4 as stated fails: a second detection, of an identifier the registry
    does not know, overwrites the identifier and keeps the record. *)
Lemma stale_record_after_unknown_identifier :
  let s := perform studentDatabase quietEngine (IDDetected "0000000")
             (perform studentDatabase quietEngine (IDDetected "2201547") initialFlow) in
  reachable studentDatabase quietEngine s /\
  studentData s = Some (Student janeSmith) /\
  studentId s = Some "0000000" /\
  getStudentByID studentDatabase "0000000" = None /\
  getStudentByID studentDatabase "0000000" <> studentData s.
Proof.
  cbv zeta. split.
  - do 2 apply reachable_perform. apply reachable_initial.
  - repeat split; discriminate.
Qed.

(** The same happens in the application itself as soon as the identifier is
    a name the registry only inherits: the lookup finds a built-in function,
    the flow moves on to face verification, and what is bound is what the
    call of that function returns, whatever the engine. *)
Example inherited_name_is_found (engine : Engine) :
  let s := perform studentDatabase engine (IDDetected "toString") initialFlow in
  getStudentByID studentDatabase "toString" = Some (Inherited "toString") /\
  currentStep s = VERIFYING_FACE /\
  studentId s = Some "toString" /\
  studentData s = engine "toString" None.
Proof. cbv zeta. repeat split. Qed.

(** The design document's scenario: detection, verification, reset. *)
Example flow_scenario :
  let bound := perform studentDatabase quietEngine (IDDetected "2201547") initialFlow in
  let done := perform studentDatabase quietEngine
                (FaceVerified {| similarity := 0.62; confidence := 0.9 |}
                   "2026-01-01T00:00:00.000Z") bound in
  (currentStep bound = VERIFYING_FACE /\ studentData bound = Some (Student janeSmith)) /\
  (currentStep done = SUCCESS /\
   option_map (fun v => similarity (result v)) (verificationResult done)
   = Some 0.62%float) /\
  perform studentDatabase quietEngine ResetFlow done = initialFlow.
Proof. cbv zeta. repeat split. Qed.

End FlowExamples.

(** ** The ID acquisition loop *)

Section AcquisitionClaims.

Local Open Scope string_scope.

Variable STUDENTS : Registry.
Variable engine : Engine.

(** A failed attempt below the budget counts and goes on; the attempt that
    reaches the budget stops the timer and records the timeout.  Neither
    invokes [onIDDetected]. *)
Lemma scanFrame_failed_attempt (rawText : string) (st : Scanner) :
  isProcessing st = false -> unreadable STUDENTS rawText ->
  let '(st', detected) :=
    scanFrame (getAllValidStudentIDs STUDENTS) true (Recognized rawText) st in
  detected = None /\
  scanCount st' = S (scanCount st) /\
  isProcessing st' = false /\
  (MAX_ATTEMPTS <= S (scanCount st) ->
   scanInterval st' = false /\ scanError st' = Some timeoutMessage /\
   scanStatus st' = "Scan timeout") /\
  (S (scanCount st) < MAX_ATTEMPTS -> scanInterval st' = scanInterval st).
Proof.
  intros Hp Hu. unfold scanFrame, unreadable in *. rewrite Hp, Hu. cbn [orb negb].
  cbn [countAttempt setScanStatus setProcessing scanCount].
  destruct (MAX_ATTEMPTS <=? S (scanCount st))%nat eqn:L.
  - repeat split; try reflexivity. apply Nat.leb_le in L. intros; lia.
  - apply Nat.leb_gt in L. repeat split; try reflexivity; intros; lia.
Qed.

(** No tick whose text is unreadable reaches the controller. *)
Lemma scanTick_unreadable_keeps_flow (ready : bool) (outcome : OcrOutcome)
    (sys : Acquisition) :
  match outcome with Recognized rawText => unreadable STUDENTS rawText | RecognitionThrew => True end ->
  flow (scanTick STUDENTS engine ready outcome sys) = flow sys.
Proof.
  intros Hu. unfold scanTick.
  destruct (scanInterval (scanner sys)); [|reflexivity].
  unfold scanFrame.
  destruct (isProcessing (scanner sys) || negb ready); [reflexivity|].
  destruct outcome as [rawText|]; [|reflexivity].
  unfold unreadable in Hu. now rewrite Hu.
Qed.

Lemma scanTicks_stopped (ticks : list (bool * OcrOutcome)) (sys : Acquisition) :
  scanInterval (scanner sys) = false -> scanTicks STUDENTS engine ticks sys = sys.
Proof.
  intros Hoff. induction ticks as [|[ready outcome] ticks IH]; [reflexivity|].
  simpl. unfold scanTick. now rewrite Hoff.
Qed.

Lemma scanTicks_exhaust (ticks : list (bool * OcrOutcome)) (sys : Acquisition) :
  scanInterval (scanner sys) = true ->
  isProcessing (scanner sys) = false ->
  scanCount (scanner sys) < MAX_ATTEMPTS ->
  MAX_ATTEMPTS <= scanCount (scanner sys) + attempts ticks ->
  Forall (failingTick STUDENTS) ticks ->
  let sys' := scanTicks STUDENTS engine ticks sys in
  scanInterval (scanner sys') = false /\
  scanCount (scanner sys') = MAX_ATTEMPTS /\
  scanError (scanner sys') = Some timeoutMessage /\
  scanStatus (scanner sys') = "Scan timeout" /\
  flow sys' = flow sys.
Proof.
  revert sys.
  induction ticks as [|[ready outcome] ticks IH]; intros sys Hon Hp Hlt Hcount Hall.
  - cbn [attempts filter List.length] in Hcount. lia.
  - inversion Hall as [|? ? Ht Hrest]; subst. cbn [scanTicks].
    destruct ready.
    + destruct outcome as [rawText|].
      * (* an attempt that fails *)
        pose proof (scanFrame_failed_attempt (scanner sys) Hp Ht) as Hstep.
        unfold scanTick. rewrite Hon.
        destruct (scanFrame (getAllValidStudentIDs STUDENTS) true
                    (Recognized rawText) (scanner sys)) as [st' detected].
        destruct Hstep as [-> [Hc [Hp' [Hlast Hmore]]]].
        destruct (Nat.le_gt_cases MAX_ATTEMPTS (S (scanCount (scanner sys))))
          as [Hfull | Hroom].
        -- destruct (Hlast Hfull) as [H1 [H2 H3]].
           rewrite scanTicks_stopped by exact H1. cbn [scanner flow].
           repeat split; try assumption. lia.
        -- specialize (IH {| scanner := st'; flow := flow sys |}).
           cbn [scanner flow] in IH. apply IH; try assumption.
           ++ rewrite (Hmore Hroom). exact Hon.
           ++ lia.
           ++ unfold attempts in *. cbn [filter List.length] in Hcount. lia.
      * (* the recognition threw: nothing is counted *)
        unfold scanTick. rewrite Hon. unfold scanFrame. rewrite Hp. cbn [orb negb].
        specialize (IH {| scanner :=
                            setProcessing false
                              (setScanStatus "Scanning for ID card..."
                                 (setProcessing true (scanner sys)));
                          flow := flow sys |}).
        cbn [scanner flow setProcessing setScanStatus scanInterval isProcessing
             scanCount scanError] in IH.
        apply IH; try assumption; reflexivity.
    + (* the callback returned at its first test *)
      assert (E : scanTick STUDENTS engine false outcome sys = sys).
      { unfold scanTick. rewrite Hon. unfold scanFrame.
        rewrite orb_true_r. now destruct sys. }
      rewrite E. now apply IH.
Qed.

(** C2, as the code has it.  When the sixtieth attempt of a scan fails, the
    loop clears its timer and reports the timeout through its own error and
    status cells.  The controller is not told: its state is the one it had
    when the scan started, and in particular it is not [FAILED_ID], the step
    of an identifier that the registry does not know. *)
Theorem budget_exhaustion_is_local (ticks : list (bool * OcrOutcome)) (sys : Acquisition) :
  Forall (failingTick STUDENTS) ticks ->
  MAX_ATTEMPTS <= attempts ticks ->
  let started := {| scanner := startScanning (scanner sys); flow := flow sys |} in
  let sys' := scanTicks STUDENTS engine ticks started in
  scanInterval (scanner sys') = false /\
  scanCount (scanner sys') = MAX_ATTEMPTS /\
  scanError (scanner sys') = Some timeoutMessage /\
  scanStatus (scanner sys') = "Scan timeout" /\
  flow sys' = flow sys /\
  forall later, scanTicks STUDENTS engine later sys' = sys'.
Proof.
  intros Hall Hcount. cbv zeta.
  set (started := {| scanner := startScanning (scanner sys); flow := flow sys |}).
  destruct (@scanTicks_exhaust ticks started) as [H1 [H2 [H3 [H4 H5]]]];
    try reflexivity; try assumption.
  - unfold MAX_ATTEMPTS. cbn. lia.
  - repeat split; try assumption. intros later. now apply scanTicks_stopped.
Qed.

End AcquisitionClaims.

Section AcquisitionExamples.

Local Open Scope string_scope.

Lemma blankFrames_fail :
  Forall (failingTick studentDatabase) (map (fun t => (true, Recognized t)) blankFrames).
Proof.
  apply Forall_forall. intros tick Hin. apply in_map_iff in Hin.
  destruct Hin as [t [<- Ht]]. apply repeat_spec in Ht. now subst.
Qed.

Lemma budget_exhaustion_is_local_witness :
  MAX_ATTEMPTS <= attempts (map (fun t => (true, Recognized t)) blankFrames) /\
  flow (scanTicks studentDatabase quietEngine
          (map (fun t => (true, Recognized t)) blankFrames)
          {| scanner := startScanning idleScanner; flow := initialFlow |})
  = initialFlow.
Proof.
  split; [apply Nat.le_refl|].
  exact (proj1 (proj2 (proj2 (proj2 (proj2
    (@budget_exhaustion_is_local studentDatabase quietEngine
       (map (fun t => (true, Recognized t)) blankFrames)
       {| scanner := idleScanner; flow := initialFlow |}
       blankFrames_fail (Nat.le_refl _))))))).
Defined.

(** C2 as stated fails: after sixty failed attempts the loop has stopped
    with a timeout, and the controller is still in its initial state. *)
Lemma budget_exhaustion_leaves_controller :
  let sys := scanTicks studentDatabase quietEngine
               (map (fun t => (true, Recognized t)) blankFrames)
               {| scanner := startScanning idleScanner; flow := initialFlow |} in
  scanInterval (scanner sys) = false /\
  scanCount (scanner sys) = 60 /\
  scanStatus (scanner sys) = "Scan timeout" /\
  currentStep (flow sys) = SCANNING_ID /\
  flow sys = initialFlow.
Proof. vm_compute. repeat split. Qed.

(** An identifier the scanner reconciles reaches the controller at once. *)
Example scan_detects_identifier :
  let sys := scanTick studentDatabase quietEngine true (Recognized "ID: 2201547 CARD")
               {| scanner := startScanning idleScanner; flow := initialFlow |} in
  scanInterval (scanner sys) = false /\
  scanStatus (scanner sys) = "ID detected!" /\
  currentStep (flow sys) = VERIFYING_FACE /\
  studentData (flow sys) = Some (Student janeSmith).
Proof. vm_compute. repeat split. Qed.

End AcquisitionExamples.

(** ** The face verification loop *)

Section FaceLoopClaims.

Variable cfg : FaceConfig.

(** Once [hasVerifiedRef] is set, no arrival calls [onVerified] or clears
    the flag: a fresh tick returns at its first line, and a callback that
    was already awaiting the detector fails the [!hasVerifiedRef.current]
    test of the success branch. *)
Lemma arrive_after_verified (a : Arrival) (st : FaceLoop) :
  hasVerified st = true ->
  hasVerified (fst (arrive cfg a st)) = true /\
  verifiedCalls (snd (arrive cfg a st)) = 0.
Proof.
  intros Hv. destruct a as [video outcome now | video outcome now]; simpl.
  - unfold tickProceeds. rewrite Hv.
    destruct video; simpl; now split.
  - unfold tickBody.
    destruct outcome as [[|d [|d' ds]]|]; simpl; try now split.
    destruct (checkFaceQuality video d && _); simpl; [|now split].
    rewrite Hv. cbn [negb]. rewrite andb_false_r. simpl. now split.
Qed.

Lemma verifiedCalls_app (e1 e2 : list Effect) :
  verifiedCalls (e1 ++ e2) = verifiedCalls e1 + verifiedCalls e2.
Proof. unfold verifiedCalls. now rewrite filter_app, length_app. Qed.

Lemma arrivals_after_verified (l : list Arrival) (st : FaceLoop) :
  hasVerified st = true ->
  hasVerified (fst (arrivals cfg l st)) = true /\
  verifiedCalls (snd (arrivals cfg l st)) = 0.
Proof.
  revert st. induction l as [|a l IH]; intros st Hv; simpl; [now split|].
  destruct (arrive_after_verified a st Hv) as [H1 H2].
  destruct (arrive cfg a st) as [st1 e1]. cbn [fst snd] in H1, H2.
  destruct (IH st1 H1) as [H3 H4].
  destruct (arrivals cfg l st1) as [st2 e2]. cbn [fst snd] in *.
  split; [assumption|]. rewrite verifiedCalls_app. lia.
Qed.

(** An arrival calls [onVerified] at most once, and only by setting the flag. *)
Lemma arrive_verifies_once (a : Arrival) (st : FaceLoop) :
  verifiedCalls (snd (arrive cfg a st)) = 0 \/
  (verifiedCalls (snd (arrive cfg a st)) = 1 /\
   hasVerified (fst (arrive cfg a st)) = true).
Proof.
  assert (B : forall video outcome now,
             verifiedCalls (snd (tickBody cfg video outcome now st)) = 0 \/
             (verifiedCalls (snd (tickBody cfg video outcome now st)) = 1 /\
              hasVerified (fst (tickBody cfg video outcome now st)) = true)).
  { intros video outcome now. unfold tickBody.
    destruct outcome as [[|d [|d' ds]]|]; simpl; try now left.
    destruct (checkFaceQuality video d && _); simpl; [|now left].
    destruct (PrimFloat.leb _ _ && negb (hasVerified st)); simpl;
      [right; now split | now left]. }
  destruct a as [video outcome now | video outcome now]; simpl; [|apply B].
  destruct (tickProceeds video st); [apply B | now left].
Qed.

(** Whatever arrives, in whatever order, [onVerified] is called at most once
    between two calls of [startFaceDetection]. *)
Lemma verified_at_most_once (l : list Arrival) (st : FaceLoop) :
  verifiedCalls (snd (arrivals cfg l st)) <= 1.
Proof.
  revert st. induction l as [|a l IH]; intros st; simpl; [apply Nat.le_0_l|].
  pose proof (arrive_verifies_once a st) as Ha.
  destruct (arrive cfg a st) as [st1 e1]. cbn [fst snd] in Ha.
  pose proof (IH st1) as IH1.
  pose proof (arrivals_after_verified l st1) as Hafter.
  destruct (arrivals cfg l st1) as [st2 e2]. cbn [fst snd] in *.
  rewrite verifiedCalls_app.
  destruct Ha as [-> | [-> Hv]]; [lia|].
  destruct (Hafter Hv) as [_ ->]. lia.
Qed.

(** Effects without a call of [onVerified] leave the session as it is. *)
Lemma deliver_nothing (effects : list Effect) (clock : string) (s : Flow) :
  verifiedCalls effects = 0 -> deliver effects clock s = s.
Proof.
  induction effects as [|[|matched] effects IH]; simpl; intros H;
    [reflexivity | now apply IH | discriminate].
Qed.

Lemma verificationSteps_after_verified (l : list (Arrival * string)) (sys : Verification) :
  hasVerified (faceLoop sys) = true ->
  session (verificationSteps cfg l sys) = session sys.
Proof.
  revert sys. induction l as [|[a clock] l IH]; intros sys Hv; simpl; [reflexivity|].
  destruct (arrive_after_verified a (faceLoop sys) Hv) as [H1 H2].
  unfold verificationStep. cbn [fst snd].
  destruct (arrive cfg a (faceLoop sys)) as [st1 e1]. simpl in H1, H2.
  rewrite IH; cbn [faceLoop session]; [|assumption].
  now apply deliver_nothing.
Qed.

(** C3.  The tick on which a single, well-framed face first scores at or
    above the match threshold calls [onVerified] exactly once, with the
    similarity and the detector's confidence, sets the flag and clears the
    timer; the controller records that result.  No later arrival, whatever
    it would score, calls [onVerified] again or changes the recorded result. *)
Theorem success_is_idempotent
    (st : FaceLoop) (videoWidth : float) (detection : Detection) (now : Z)
    (clock : string) (s : Flow) :
  hasVerified st = false ->
  checkFaceQuality (Some videoWidth) detection = true ->
  (MATCHING_THROTTLE cfg <=? now - lastDetectionTime st)%Z = true ->
  PrimFloat.leb (MATCH_THRESHOLD cfg)
    (comparator cfg (Some (descriptor detection)) (referenceDescriptor st)) = true ->
  let matched :=
    {| similarity := comparator cfg (Some (descriptor detection)) (referenceDescriptor st);
       confidence := score detection |} in
  let first := Tick (Some videoWidth) (Detected [detection]) now in
  let confirmed := verificationStep cfg (first, clock) {| faceLoop := st; session := s |} in
  snd (arrive cfg first st) = [Speak; OnVerified matched] /\
  hasVerified (faceLoop confirmed) = true /\
  detectionInterval (faceLoop confirmed) = false /\
  verificationResult (session confirmed)
  = Some {| result := matched; timestamp := clock; result_studentId := studentId s |} /\
  (forall later,
     verifiedCalls (snd (arrivals cfg (first :: later) st)) = 1) /\
  (forall later,
     session (verificationSteps cfg later confirmed) = session confirmed).
Proof.
  intros Hv Hq Ht Hs. cbv zeta.
  assert (E : arrive cfg (Tick (Some videoWidth) (Detected [detection]) now) st
              = ({| hasVerified := true;
                    detectionInterval := false;
                    lastDetectionTime := now;
                    referenceDescriptor := referenceDescriptor st;
                    faceStatus := VerifyingFace;
                    faceDetected := true;
                    similarityScore :=
                      Some (comparator cfg (Some (descriptor detection))
                              (referenceDescriptor st));
                    isVerifying := false |},
                 [Speak;
                  OnVerified
                    {| similarity := comparator cfg (Some (descriptor detection))
                                       (referenceDescriptor st);
                       confidence := score detection |}])).
  { unfold arrive, tickProceeds, tickBody. now rewrite Hv, Hq, Ht, Hs. }
  unfold verificationStep. cbn [fst snd faceLoop session]. rewrite E.
  cbn [fst snd faceLoop session deliver handleFaceVerified verificationResult
       hasVerified detectionInterval].
  repeat split.
  - intros later. cbn [arrivals]. rewrite E.
    match goal with |- context [arrivals cfg later ?st1] =>
      pose proof (arrivals_after_verified later st1 eq_refl) as [_ H0];
      destruct (arrivals cfg later st1) as [st2 e2] end.
    cbn [snd] in *. rewrite verifiedCalls_app, H0. reflexivity.
  - intros later. now rewrite verificationSteps_after_verified.
Qed.

End FaceLoopClaims.

Section FaceLoopExamples.

Local Open Scope string_scope.

Lemma success_is_idempotent_witness :
  let first := Tick (Some 640%float) (Detected [centredFace]) 5000 in
  let again := Tick (Some 640%float) (Detected [centredFace]) 10000 in
  let late := Resumption (Some 640%float) (Detected [centredFace]) 10300 in
  verifiedCalls (snd (arrivals cosineConfig [first; again; late] startedLoop)) = 1.
Proof.
  exact (proj1 (proj2 (proj2 (proj2 (proj2
    (@success_is_idempotent cosineConfig startedLoop 640%float centredFace 5000
       "2026-01-01T00:00:00.000Z" initialFlow
       eq_refl eq_refl eq_refl eq_refl)))))
    [Tick (Some 640%float) (Detected [centredFace]) 10000;
     Resumption (Some 640%float) (Detected [centredFace]) 10300]).
Defined.

(** The same holds for the copy of the hook that compares by distance: the
    second confirmation attempt leaves the recorded result untouched. *)
Example distance_loop_confirms_once :
  let bound := perform studentDatabase quietEngine (IDDetected "2201547") initialFlow in
  let first := (Tick (Some 640%float) (Detected [centredFace]) 6000, "first") in
  let again := (Resumption (Some 640%float) (Detected [centredFace]) 13000, "again") in
  let once := verificationSteps distanceConfig [first]
                {| faceLoop := startedLoop; session := bound |} in
  let twice := verificationSteps distanceConfig [first; again]
                 {| faceLoop := startedLoop; session := bound |} in
  currentStep (session once) = SUCCESS /\
  option_map timestamp (verificationResult (session once)) = Some "first" /\
  session twice = session once.
Proof. cbv zeta. repeat split. Qed.

(** Two faces in the frame: the tick reports the rejection and compares
    nothing. *)
Example multiple_faces_rejected :
  arrive cosineConfig
    (Tick (Some 640%float) (Detected [centredFace; centredFace]) 5000) startedLoop
  = ({| hasVerified := false;
        detectionInterval := true;
        lastDetectionTime := 0;
        referenceDescriptor := Some [0.1; 0.2; 0.3]%float;
        faceStatus := MultipleFaces;
        faceDetected := false;
        similarityScore := None;
        isVerifying := false |}, []).
Proof. reflexivity. Qed.

End FaceLoopExamples.

(** ** Doubles

    Facts about binary64 arithmetic, from the bit-level specification of the
    primitive operations. *)

Section Doubles.

Local Open Scope float_scope.

Lemma not_nan_spec (x : float) :
  PrimFloat.is_nan x = false -> Prim2SF x <> S754_nan.
Proof.
  unfold PrimFloat.is_nan. rewrite eqb_spec. intros H E. rewrite E in H. discriminate.
Qed.

Lemma SFcompare_swap (x y : spec_float) :
  SFcompare y x = option_map CompOpp (SFcompare x y).
Proof.
  destruct x as [sx|sx| |sx mx ex], y as [sy|sy| |sy my ey]; simpl;
    try reflexivity;
    try (destruct sx; reflexivity); try (destruct sy; reflexivity);
    try (destruct sx, sy; reflexivity).
  destruct sx, sy; simpl; try reflexivity;
    rewrite (Z.compare_antisym ex ey); destruct (ex ?= ey)%Z; simpl; try reflexivity;
    rewrite (Pos.compare_cont_antisym mx my Eq); simpl;
    now rewrite ?CompOpp_involutive.
Qed.

Lemma ltb_negb_leb (x y : float) :
  PrimFloat.is_nan x = false -> PrimFloat.is_nan y = false ->
  (x <? y) = negb (y <=? x).
Proof.
  intros Hx Hy. apply not_nan_spec in Hx, Hy.
  rewrite ltb_spec, leb_spec. unfold SFltb, SFleb.
  rewrite (SFcompare_swap (Prim2SF x) (Prim2SF y)).
  destruct (SFcompare (Prim2SF x) (Prim2SF y)) as [[| |]|] eqn:E; try reflexivity.
  exfalso. destruct (Prim2SF x), (Prim2SF y); simpl in E; try discriminate;
    try congruence; destruct s; discriminate.
Qed.

Lemma mul_comm (x y : float) : x * y = y * x.
Proof.
  apply Prim2SF_inj. rewrite !mul_spec. unfold SF64mul.
  destruct (Prim2SF x) as [sx|sx| |sx mx ex], (Prim2SF y) as [sy|sy| |sy my ey];
    simpl; try reflexivity; rewrite ?(xorb_comm sy sx); try reflexivity.
  now rewrite (Pos.mul_comm my mx), (Z.add_comm ey ex).
Qed.

(** The sign given to [binary_round_aux] only labels its result. *)
Lemma binary_round_aux_opp (s : bool) (m e : Z) (l : location) :
  binary_round_aux prec emax (negb s) m e l
  = SFopp (binary_round_aux prec emax s m e l).
Proof.
  unfold binary_round_aux.
  destruct (shr_fexp prec emax m e l) as [mrs' e'].
  destruct (shr_fexp prec emax _ e' loc_Exact) as [mrs'' e''].
  destruct (shr_m mrs''); try reflexivity.
  destruct (e'' <=? emax - prec)%Z; reflexivity.
Qed.

Lemma binary_normalize_opp (m e : Z) :
  binary_normalize prec emax (- m) e false = binary_normalize prec emax m e false
  \/ binary_normalize prec emax (- m) e false
     = SFopp (binary_normalize prec emax m e false).
Proof.
  destruct m as [|p|p]; simpl; [now left | right | right]; unfold binary_round;
    destruct (shl_align _ _ _) as [mz ez].
  - exact (binary_round_aux_opp false (Z.pos mz) ez loc_Exact).
  - change true with (negb false).
    rewrite (binary_round_aux_opp false (Z.pos mz) ez loc_Exact).
    destruct (binary_round_aux prec emax false (Z.pos mz) ez loc_Exact);
      simpl; now rewrite ?negb_involutive.
Qed.

Lemma SFsub_swap (x y : spec_float) :
  SFsub prec emax y x = SFsub prec emax x y \/
  SFsub prec emax y x = SFopp (SFsub prec emax x y).
Proof.
  destruct x as [sx|sx| |sx mx ex], y as [sy|sy| |sy my ey]; simpl;
    try (now left); try (now right);
    try (destruct sx, sy; simpl; (now left) || (now right)).
  rewrite (Z.min_comm ey ex).
  set (A := cond_Zopp sx (Z.pos (fst (shl_align mx ex (Z.min ex ey))))).
  set (B := cond_Zopp sy (Z.pos (fst (shl_align my ey (Z.min ex ey))))).
  replace (B - A)%Z with (- (A - B))%Z by ring.
  apply binary_normalize_opp.
Qed.

Lemma SFmul_opp_opp (z : spec_float) :
  SFmul prec emax (SFopp z) (SFopp z) = SFmul prec emax z z.
Proof. destruct z as [s|s| |s m e]; simpl; try reflexivity; now destruct s. Qed.

Lemma squared_difference_swap (x y : float) :
  (x - y) * (x - y) = (y - x) * (y - x).
Proof.
  apply Prim2SF_inj. rewrite !mul_spec, !sub_spec. unfold SF64mul, SF64sub.
  destruct (SFsub_swap (Prim2SF x) (Prim2SF y)) as [-> | ->];
    [reflexivity | now rewrite SFmul_opp_opp].
Qed.

End Doubles.

(** ** The quality gate *)

Section QualityGateClaims.

Local Open Scope float_scope.

(** C5, as the code has it.  For a detection and a frame width whose
    compared quantities are numbers, the gate passes exactly when the
    confidence is at least 0.5, the distance between the centre of the box
    and the centre of the frame is at most the tolerance the gate computes,
    the double [videoWidth * 0.35], and the width of the box lies between
    the doubles [videoWidth * 0.15] and [videoWidth * 0.85].  A box whose
    centre is further off than that tolerance is rejected whatever the
    confidence is. *)
Theorem quality_gate_checks (videoWidth : float) (detection : Detection) :
  let faceBox := box detection in
  let offset := abs (box_x faceBox + box_width faceBox / 2 - videoWidth / 2) in
  let maxOffset := videoWidth * 0.35 in
  let minSize := videoWidth * 0.15 in
  let maxSize := videoWidth * 0.85 in
  PrimFloat.is_nan (score detection) = false ->
  PrimFloat.is_nan offset = false ->
  PrimFloat.is_nan maxOffset = false ->
  PrimFloat.is_nan (box_width faceBox) = false ->
  PrimFloat.is_nan minSize = false ->
  PrimFloat.is_nan maxSize = false ->
  (checkFaceQuality (Some videoWidth) detection = true <->
   (0.5 <=? score detection) = true /\
   (offset <=? maxOffset) = true /\
   (minSize <=? box_width faceBox) = true /\
   (box_width faceBox <=? maxSize) = true) /\
  (forall anyScore,
     (maxOffset <? offset) = true ->
     checkFaceQuality (Some videoWidth)
       {| score := anyScore; box := faceBox; descriptor := descriptor detection |}
     = false).
Proof.
  cbv zeta. intros Hs Ho Hm Hw Hmin Hmax. split.
  - unfold checkFaceQuality.
    rewrite (ltb_negb_leb (score detection) 0.5 Hs eq_refl).
    rewrite (ltb_negb_leb _ _ Hm Ho).
    rewrite (ltb_negb_leb _ _ Hw Hmin).
    rewrite (ltb_negb_leb _ _ Hmax Hw).
    destruct (0.5 <=? score detection); simpl; [|intuition discriminate].
    destruct (_ <=? videoWidth * 0.35); simpl; [|intuition discriminate].
    destruct (videoWidth * 0.15 <=? _); simpl; [|intuition discriminate].
    destruct (_ <=? videoWidth * 0.85); simpl; intuition discriminate.
  - intros anyScore Hoff. unfold checkFaceQuality. cbn [score box box_x box_width].
    destruct (anyScore <? 0.5); [reflexivity|]. now rewrite Hoff.
Qed.

Lemma quality_gate_checks_witness :
  checkFaceQuality (Some 640) centredFace = true <->
  (0.5 <=? score centredFace) = true /\
  (abs (box_x (box centredFace) + box_width (box centredFace) / 2 - 640 / 2)
     <=? 640 * 0.35) = true /\
  (640 * 0.15 <=? box_width (box centredFace)) = true /\
  (box_width (box centredFace) <=? 640 * 0.85) = true.
Proof.
  exact (proj1 (@quality_gate_checks 640 centredFace
                  eq_refl eq_refl eq_refl eq_refl eq_refl eq_refl)).
Defined.

(** C5 as stated fails: the bounds the gate compares with are rounded
    products.  In a frame 720 wide the tolerance [720 * 0.35] is the double
    just below 252, so a confident face of width 200 at 512, whose centre is
    exactly 0.35 of the width from the centre of the frame, is rejected.
    And a confidence that is not a number passes the first check. *)
Lemma quality_gate_rounds_its_bounds :
  checksOnExactNumbers 0.99 720 512 200 /\
  checkFaceQuality (Some 720)
    {| score := 0.99;
       box := {| box_x := 512; box_y := 100; box_width := 200; box_height := 240 |};
       descriptor := [] |} = false /\
  (720 * 0.35 <? 252) = true /\
  checkFaceQuality (Some 640)
    {| score := nan; box := box centredFace; descriptor := [] |} = true.
Proof.
  split; [|now repeat split].
  unfold checksOnExactNumbers.
  replace (512 + 200 / 2 - 720 / 2)%R with 252%R by lra.
  rewrite Rabs_pos_eq by lra. lra.
Qed.

(** A confident detection far from the centre of the frame is rejected. *)
Example off_centre_rejected :
  checkFaceQuality (Some 640)
    {| score := 0.99;
       box := {| box_x := 0; box_y := 100; box_width := 150; box_height := 200 |};
       descriptor := [] |} = false.
Proof. reflexivity. Qed.

End QualityGateClaims.

(** ** The descriptor comparators *)

Section ComparatorSymmetry.

Local Open Scope float_scope.

Lemma accumulate_swap (a b : list float) (dot normA normB : float) :
  accumulate b a dot normB normA =
  let '(d, p, q) := accumulate a b dot normA normB in (d, q, p).
Proof.
  revert b dot normA normB. induction a as [|x a IH]; intros [|y b] dot normA normB;
    try reflexivity.
  cbn [accumulate num_add num_mul float_arith].
  rewrite (mul_comm y x). apply IH.
Qed.

Lemma cosineSimilarity_symmetric (a b : option (list float)) :
  cosineSimilarity a b = cosineSimilarity b a.
Proof.
  destruct a as [a|], b as [b|]; try reflexivity.
  unfold cosineSimilarity. rewrite (Nat.eqb_sym (List.length b) (List.length a)).
  destruct (negb _); [reflexivity|].
  rewrite (accumulate_swap a b).
  destruct (accumulate a b num_zero num_zero num_zero) as [[d p] q].
  cbn [num_mul num_sqrt float_arith].
  now rewrite (mul_comm (PrimFloat.sqrt q) (PrimFloat.sqrt p)).
Qed.

Lemma sumSquaredDiffs_swap (a b : list float) (sum : float) :
  sumSquaredDiffs b a sum = sumSquaredDiffs a b sum.
Proof.
  revert b sum. induction a as [|x a IH]; intros [|y b] sum; try reflexivity.
  cbn [sumSquaredDiffs num_add num_sub num_mul float_arith].
  rewrite (squared_difference_swap y x). apply IH.
Qed.

Lemma faceSimilarity_symmetric (a b : option (list float)) :
  faceSimilarity a b = faceSimilarity b a.
Proof.
  destruct a as [a|], b as [b|]; try reflexivity.
  unfold faceSimilarity. rewrite (Nat.eqb_sym (List.length b) (List.length a)).
  destruct (negb _); [reflexivity|].
  now rewrite (sumSquaredDiffs_swap a b).
Qed.

End ComparatorSymmetry.

Section ExactComparators.

Local Open Scope R_scope.

(** The Cauchy-Schwarz inequality, as an invariant of the loop. *)
Lemma accumulate_cauchy_schwarz (a b : list R) (dot normA normB : R) :
  0 <= normA -> 0 <= normB -> dot * dot <= normA * normB ->
  let '(d, p, q) := accumulate a b dot normA normB in
  0 <= p /\ 0 <= q /\ d * d <= p * q.
Proof.
  revert b dot normA normB.
  induction a as [|x a IH]; intros [|y b] dot normA normB Hp Hq Hd;
    try (cbn; now repeat split).
  cbn [accumulate num_add num_mul real_arith].
  apply IH.
  - nra.
  - nra.
  - assert (C : 2 * dot * x * y <= normA * (y * y) + normB * (x * x)).
    { destruct (Rle_or_lt (2 * dot * x * y) (normA * (y * y) + normB * (x * x)))
        as [H | H]; [exact H | exfalso].
      assert (0 <= normA * (y * y) + normB * (x * x)) by nra.
      assert (S1 : (normA * (y * y) + normB * (x * x)) * (normA * (y * y) + normB * (x * x))
                   < (2 * dot * x * y) * (2 * dot * x * y)) by nra.
      assert (S2 : (2 * dot * x * y) * (2 * dot * x * y)
                   <= 4 * (normA * normB) * ((x * y) * (x * y))).
      { replace ((2 * dot * x * y) * (2 * dot * x * y))
          with (4 * (dot * dot) * ((x * y) * (x * y))) by ring.
        apply Rmult_le_compat_r; [apply Rle_0_sqr | lra]. }
      assert (S3 : 0 <= (normA * (y * y) - normB * (x * x))
                        * (normA * (y * y) - normB * (x * x))) by apply Rle_0_sqr.
      nra. }
    nra.
Qed.

Lemma cosineSimilarity_exact_bounds (a b : option (list R)) :
  0 <= cosineSimilarity a b <= 1.
Proof.
  destruct a as [a|], b as [b|]; try (cbn; lra).
  unfold cosineSimilarity.
  destruct (negb _); [cbn; lra|].
  pose proof (@accumulate_cauchy_schwarz a b 0 0 0) as CS.
  cbn [num_zero real_arith] in *.
  destruct (accumulate a b 0 0 0) as [[d p] q].
  destruct CS as [Hp [Hq Hd]]; try lra.
  cbn [num_mul num_sqrt num_is_zero num_add num_div num_one num_two real_arith].
  destruct (Req_dec_T (sqrt p * sqrt q) 0) as [E | NE]; [lra|].
  assert (Hden : 0 < sqrt p * sqrt q).
  { pose proof (sqrt_pos p). pose proof (sqrt_pos q). nra. }
  assert (Habs : Rabs d <= sqrt p * sqrt q).
  { rewrite <- sqrt_mult by assumption.
    rewrite <- (sqrt_Rsqr_abs d). apply sqrt_le_1; unfold Rsqr; nra. }
  pose proof (Rle_abs d) as Hup. pose proof (Rle_abs (- d)) as Hlow.
  rewrite Rabs_Ropp in Hlow.
  assert (-1 <= d / (sqrt p * sqrt q) <= 1).
  { split.
    - apply (Rmult_le_reg_r (sqrt p * sqrt q)); [assumption|].
      unfold Rdiv. rewrite Rmult_assoc, Rinv_l by assumption. lra.
    - apply (Rmult_le_reg_r (sqrt p * sqrt q)); [assumption|].
      unfold Rdiv. rewrite Rmult_assoc, Rinv_l by assumption. lra. }
  lra.
Qed.

Lemma sumSquaredDiffs_nonneg (a b : list R) (sum : R) :
  0 <= sum -> 0 <= sumSquaredDiffs a b sum.
Proof.
  revert b sum. induction a as [|x a IH]; intros [|y b] sum H; try assumption.
  cbn [sumSquaredDiffs]. cbv zeta. apply IH.
  cbn [num_add num_sub num_mul real_arith].
  pose proof (Rle_0_sqr (x - y)) as Hsq. unfold Rsqr in Hsq. lra.
Qed.

Lemma faceSimilarity_exact_bounds (a b : option (list R)) :
  0 <= faceSimilarity a b <= 1.
Proof.
  destruct a as [a|], b as [b|]; try (cbn; lra).
  unfold faceSimilarity.
  destruct (negb _); [cbn; lra|].
  cbn [num_zero num_one num_max num_sub num_sqrt real_arith].
  pose proof (sqrt_pos (sumSquaredDiffs a b 0)).
  unfold Rmax. destruct (Rle_dec 0 (1 - sqrt (sumSquaredDiffs a b 0))); lra.
Qed.

(** Comparing a descriptor with itself accumulates its squared norm three
    times over. *)
Lemma accumulate_self {num : Type} {arith : JsArith num} (a : list num) (n : num) :
  accumulate a a n n n =
  (fold_left (fun s x => num_add s (num_mul x x)) a n,
   fold_left (fun s x => num_add s (num_mul x x)) a n,
   fold_left (fun s x => num_add s (num_mul x x)) a n).
Proof.
  revert n. induction a as [|x a IH]; intros n; [reflexivity|].
  cbn [accumulate fold_left]. apply IH.
Qed.

Lemma squared_norm_grows (a : list R) (n : R) :
  n <= fold_left (fun s x => s + x * x) a n.
Proof.
  revert n. induction a as [|x a IH]; intros n; cbn [fold_left]; [lra|].
  specialize (IH (n + x * x)). nra.
Qed.

Lemma squared_norm_positive (a : list R) (n : R) :
  0 <= n -> Exists (fun x => x <> 0) a ->
  0 < fold_left (fun s x => s + x * x) a n.
Proof.
  intros Hn Hex. revert n Hn. induction Hex as [x a Hx | x a Hex IH]; intros n Hn;
    cbn [fold_left].
  - pose proof (squared_norm_grows a (n + x * x)).
    assert (0 < x * x) by nra. lra.
  - apply IH. nra.
Qed.

End ExactComparators.

Section ZeroGuard.

Local Open Scope float_scope.

Lemma accumulate_norms (a b : list float) (dot normA normB : float) :
  List.length a = List.length b ->
  exists d,
    accumulate a b dot normA normB
    = (d, fold_left (fun s x => s + x * x) a normA,
          fold_left (fun s x => s + x * x) b normB).
Proof.
  revert b dot normA normB.
  induction a as [|x a IH]; intros [|y b] dot normA normB Hlen; try discriminate.
  - now exists dot.
  - cbn [accumulate fold_left]. apply IH. now injection Hlen.
Qed.

Lemma zero_cases (x : float) : (x =? 0) = true -> x = 0 \/ x = -0.
Proof.
  rewrite eqb_spec. change (Prim2SF 0) with (S754_zero false). intros H.
  rewrite <- (SF2Prim_Prim2SF x).
  destruct (Prim2SF x) as [[|]|[|]| |[|] m e]; try discriminate H;
    [now right | now left].
Qed.

Lemma squaredNorm_zero (v : list float) : allZero v -> squaredNorm v = 0.
Proof.
  unfold squaredNorm. induction 1 as [|x v Hx Hv IH]; [reflexivity|].
  cbn [fold_left]. destruct (@zero_cases x Hx) as [-> | ->]; exact IH.
Qed.

Lemma finite_cases (y : float) :
  PrimFloat.is_finite y = true ->
  (exists s, Prim2SF y = S754_zero s) \/ (exists s m e, Prim2SF y = S754_finite s m e).
Proof.
  unfold PrimFloat.is_finite, PrimFloat.is_nan, PrimFloat.is_infinity.
  rewrite !eqb_spec, abs_spec. change (Prim2SF infinity) with (S754_infinity false).
  destruct (Prim2SF y) as [s|s| |s m e]; intros H.
  - left. now exists s.
  - destruct s; discriminate H.
  - simpl in H. discriminate H.
  - right. now exists s, m, e.
Qed.

Lemma zero_times_finite (y : float) :
  PrimFloat.is_finite y = true -> (0 * y =? 0) = true /\ (y * 0 =? 0) = true.
Proof.
  intros Hy. rewrite (mul_comm y 0). rewrite eqb_spec, mul_spec.
  change (Prim2SF 0) with (S754_zero false).
  destruct (@finite_cases y Hy) as [[s ->] | [s [m [e ->]]]]; now split.
Qed.

End ZeroGuard.

Section ComparatorClaims.

(** C6, as the code has it.  Both scoring policies are symmetric on the
    doubles they compute.  Read in exact real arithmetic, both return a
    result between 0 and 1. *)
Theorem comparators_symmetric_exactly_bounded :
  (forall a b : option (list float), cosineSimilarity a b = cosineSimilarity b a) /\
  (forall a b : option (list float), faceSimilarity a b = faceSimilarity b a) /\
  (forall a b : option (list R), (0 <= cosineSimilarity a b <= 1)%R) /\
  (forall a b : option (list R), (0 <= faceSimilarity a b <= 1)%R).
Proof.
  split; [exact cosineSimilarity_symmetric|].
  split; [exact faceSimilarity_symmetric|].
  split; [exact cosineSimilarity_exact_bounds | exact faceSimilarity_exact_bounds].
Qed.

(** C6 as stated fails on doubles: for two opposite descriptors the rounded
    quotient is below -1, and the cosine score is negative. *)
Lemma cosine_score_below_zero :
  List.length [1; 5]%float = List.length [-1; -5]%float /\
  cosineSimilarity (Some [1; 5]%float) (Some [-1; -5]%float) = (-0x1p-53)%float /\
  PrimFloat.ltb (cosineSimilarity (Some [1; 5]%float) (Some [-1; -5]%float)) 0 = true.
Proof. repeat split. Qed.

(** Squares that overflow make the cosine score NaN. *)
Example cosine_score_overflow :
  PrimFloat.is_nan (cosineSimilarity (Some [1e200]%float) (Some [1e200]%float)) = true.
Proof. reflexivity. Qed.

(** C7, as the code has it.  In exact real arithmetic the cosine score of a
    descriptor with a non-zero component against itself is 1. *)
Theorem cosine_self_similarity_exact (a : list R) :
  Exists (fun x => x <> 0%R) a ->
  cosineSimilarity (Some a) (Some a) = 1%R.
Proof.
  intros Hex. unfold cosineSimilarity. rewrite Nat.eqb_refl. cbn [negb].
  rewrite accumulate_self.
  cbn [num_zero num_one num_two num_add num_mul num_div num_sqrt num_is_zero real_arith].
  pose proof (@squared_norm_positive a 0%R (Rle_refl 0%R) Hex) as Hpos.
  set (n := fold_left (fun s x => (s + x * x)%R) a 0%R) in *.
  rewrite sqrt_sqrt by lra.
  destruct (Req_dec_T n 0%R) as [E | NE]; [lra|].
  field. assumption.
Qed.

Lemma cosine_self_similarity_exact_witness :
  cosineSimilarity (Some [1; 1]%R) (Some [1; 1]%R) = 1%R.
Proof.
  apply cosine_self_similarity_exact. apply Exists_cons_hd. exact R1_neq_R0.
Defined.

(** C7 as stated fails on doubles: the product of the two rounded square
    roots of 2 exceeds 2, and the score of [1, 1] against itself is the
    double just below 1. *)
Lemma cosine_self_similarity_rounds :
  cosineSimilarity (Some [1; 1]%float) (Some [1; 1]%float) = 0x1.fffffffffffffp-1%float /\
  PrimFloat.eqb (cosineSimilarity (Some [1; 1]%float) (Some [1; 1]%float)) 1 = false.
Proof. split; reflexivity. Qed.

(** A square that underflows to zero sends a non-zero descriptor to the
    guarded branch. *)
Example cosine_self_similarity_underflow :
  cosineSimilarity (Some [1e-200]%float) (Some [1e-200]%float) = 0%float.
Proof. reflexivity. Qed.

Local Open Scope float_scope.

(** The loop performs no division. *)
Lemma accumulate_traced (a b : list float) (dot normA normB : float) :
  accumulate (map untraced a) (map untraced b)
    (untraced dot) (untraced normA) (untraced normB)
  = let '(d, p, q) := accumulate a b dot normA normB in
    (untraced d, untraced p, untraced q).
Proof.
  revert b dot normA normB.
  induction a as [|x a IH]; intros [|y b] dot normA normB; try reflexivity.
  cbn [map accumulate].
  exact (IH b (dot + x * y) (normA + x * x) (normB + y * y)).
Qed.

(** The comparator run on traced doubles: after the loop it either returns
    at the guard, having divided nothing, or performs its two divisions, by
    the denominator and by 2. *)
Lemma cosineSimilarity_traced (a b : list float) :
  List.length a = List.length b ->
  let '(dot, normA, normB) := accumulate a b 0 0 0 in
  let denom := PrimFloat.sqrt normA * PrimFloat.sqrt normB in
  cosineSimilarity (Some (map untraced a)) (Some (map untraced b))
  = if denom =? 0 then untraced 0
    else {| traced_value := (dot / denom + 1) / 2;
            traced_divisions := [(dot, denom); (dot / denom + 1, 2)] |}.
Proof.
  intros Hlen. unfold cosineSimilarity.
  rewrite !length_map, Hlen, Nat.eqb_refl. cbn [negb].
  change (@num_zero Traced traced_arith) with (untraced 0).
  rewrite accumulate_traced.
  destruct (accumulate a b 0 0 0) as [[dot normA] normB].
  cbn [num_is_zero num_sqrt num_mul traced_arith tracedBinary untraced
       traced_value traced_divisions].
  destruct (PrimFloat.sqrt normA * PrimFloat.sqrt normB =? 0); reflexivity.
Qed.

(** C8, as the code has it.  When one descriptor has only zero components
    and the norm computed for the other is finite, the denominator is zero
    and the function returns 0 without dividing.  On every input the
    comparator run on traced doubles computes the double it computes
    otherwise, and every division it performs has a divisor that is not
    zero. *)
Theorem zero_vector_guard (a b : list float) :
  List.length a = List.length b ->
  (allZero a /\ PrimFloat.is_finite (PrimFloat.sqrt (squaredNorm b)) = true) \/
  (allZero b /\ PrimFloat.is_finite (PrimFloat.sqrt (squaredNorm a)) = true) ->
  cosineSimilarity (Some a) (Some b) = 0 /\
  traced_divisions (cosineSimilarity (Some (map untraced a)) (Some (map untraced b))) = [] /\
  (forall u v : option (list float),
     let traced :=
       cosineSimilarity (option_map (map untraced) u) (option_map (map untraced) v) in
     traced_value traced = cosineSimilarity u v /\
     Forall (fun division => (snd division =? 0) = false) (traced_divisions traced)).
Proof.
  intros Hlen Hzero.
  assert (Hguard : let '(dot, normA, normB) := accumulate a b 0 0 0 in
                   (PrimFloat.sqrt normA * PrimFloat.sqrt normB =? 0) = true).
  { destruct (@accumulate_norms a b 0 0 0 Hlen) as [d E]. rewrite E.
    fold (squaredNorm a). fold (squaredNorm b).
    destruct Hzero as [[Ha Hb] | [Hb Ha]].
    + rewrite (squaredNorm_zero Ha). change (PrimFloat.sqrt 0) with 0.
      exact (proj1 (@zero_times_finite _ Hb)).
    + rewrite (squaredNorm_zero Hb). change (PrimFloat.sqrt 0) with 0.
      exact (proj2 (@zero_times_finite _ Ha)). }
  split; [|split].
  - unfold cosineSimilarity. rewrite Hlen, Nat.eqb_refl. cbn [negb].
    cbn [num_zero float_arith].
    destruct (accumulate a b 0 0 0) as [[dot normA] normB].
    cbn [num_mul num_sqrt num_is_zero float_arith]. now rewrite Hguard.
  - pose proof (cosineSimilarity_traced a b Hlen) as T.
    destruct (accumulate a b 0 0 0) as [[dot normA] normB].
    cbv zeta in T. rewrite Hguard in T. now rewrite T.
  - intros u v. cbv zeta.
    destruct u as [u|], v as [v|]; try (split; [reflexivity | constructor]).
    cbn [option_map].
    destruct (Nat.eqb_spec (List.length u) (List.length v)) as [Huv | Huv].
    + pose proof (cosineSimilarity_traced u v Huv) as T.
      unfold cosineSimilarity at 2. rewrite Huv, Nat.eqb_refl. cbn [negb].
      cbn [num_zero float_arith].
      destruct (accumulate u v 0 0 0) as [[dot normA] normB].
      cbv zeta in T. rewrite T.
      cbn [num_zero num_one num_two num_add num_mul num_div num_sqrt num_is_zero
           float_arith].
      destruct (PrimFloat.sqrt normA * PrimFloat.sqrt normB =? 0) eqn:E.
      * split; [reflexivity | constructor].
      * split; [reflexivity|]. repeat constructor. exact E.
    + unfold cosineSimilarity. rewrite !length_map.
      destruct (Nat.eqb_spec (List.length u) (List.length v)) as [Heq | _];
        [contradiction|].
      split; [reflexivity | constructor].
Qed.

Lemma zero_vector_guard_witness :
  cosineSimilarity (Some [0; -0]) (Some [0.3; 0.4]) = 0.
Proof.
  refine (proj1 (@zero_vector_guard [0; -0] [0.3; 0.4] eq_refl _)).
  left. split; [|reflexivity].
  apply Forall_cons; [reflexivity|]. apply Forall_cons; [reflexivity|].
  apply Forall_nil.
Defined.

(** C8 as stated fails on doubles: when the squares of the other descriptor
    overflow, its norm is infinite, the denominator [0 * Infinity] is NaN,
    the test [denom === 0] is false and the result is NaN. *)
Lemma zero_vector_with_overflow :
  allZero [0] /\
  List.length [0] = List.length [1e200] /\
  PrimFloat.is_nan (PrimFloat.sqrt 0 * PrimFloat.sqrt (squaredNorm [1e200])) = true /\
  PrimFloat.is_nan (cosineSimilarity (Some [0]) (Some [1e200])) = true.
Proof.
  split; [apply Forall_cons; [reflexivity | apply Forall_nil]|].
  repeat split.
Qed.

End ComparatorClaims.

(* ================================================================== *)
(** * Part IV: further properties of the code                          *)
(* ================================================================== *)

(** ** Cleaning and reconciling recognized text *)

Section CleaningProperties.

Local Open Scope string_scope.

Lemma replaceAll_append (matches : ascii -> bool) (replacement s t : string) :
  replaceAll matches replacement (s ++ t)
  = replaceAll matches replacement s ++ replaceAll matches replacement t.
Proof.
  induction s as [|c s IH]; simpl; [reflexivity|].
  destruct (matches c); rewrite IH; [now rewrite append_assoc | reflexivity].
Qed.

Lemma cleanOcrText_append (s t : string) :
  cleanOcrText (s ++ t) = cleanOcrText s ++ cleanOcrText t.
Proof. unfold cleanOcrText. now rewrite !replaceAll_append. Qed.

(** What becomes of a single character: a digit stays, a letter or sign that
    resembles a digit becomes that digit, anything else disappears. *)
Lemma cleanOcrText_character (c : ascii) :
  (Str.isDigit c = true -> cleanOcrText (String c "") = String c "") /\
  allDigits (cleanOcrText (String c "")).
Proof.
  destruct c as [[|] [|] [|] [|] [|] [|] [|] [|]];
    (split; [first [discriminate | reflexivity] | repeat constructor]).
Qed.

Lemma allDigits_append (s t : string) :
  allDigits s -> allDigits t -> allDigits (s ++ t).
Proof.
  unfold allDigits. intros Hs Ht. induction s as [|c s IH]; simpl; [exact Ht|].
  inversion Hs; subst. constructor; [assumption | now apply IH].
Qed.

Lemma cleanOcrText_allDigits (text : string) : allDigits (cleanOcrText text).
Proof.
  induction text as [|c text IH]; [constructor|].
  change (String c text) with (String c "" ++ text).
  rewrite cleanOcrText_append. apply allDigits_append; [|exact IH].
  apply cleanOcrText_character.
Qed.

Lemma cleanOcrText_fixes_digits (text : string) :
  allDigits text -> cleanOcrText text = text.
Proof.
  unfold allDigits. induction text as [|c text IH]; intros H; [reflexivity|].
  inversion H as [|? ? Hc Hrest]; subst.
  change (String c text) with (String c "" ++ text).
  rewrite cleanOcrText_append, (proj1 (cleanOcrText_character c) Hc), (IH Hrest).
  reflexivity.
Qed.

(** X1.  [cleanOcrText] returns only digit characters; it works character
    by character, so the cleaning of a concatenation is the concatenation of
    the cleanings; it leaves a text of digits as it is, and so cleaning
    twice is cleaning once. *)
Theorem cleanOcrText_normalizes (text more : string) :
  allDigits (cleanOcrText text) /\
  cleanOcrText (text ++ more) = cleanOcrText text ++ cleanOcrText more /\
  (allDigits text -> cleanOcrText text = text) /\
  cleanOcrText (cleanOcrText text) = cleanOcrText text.
Proof.
  split; [apply cleanOcrText_allDigits|].
  split; [apply cleanOcrText_append|].
  split; [apply cleanOcrText_fixes_digits|].
  apply cleanOcrText_fixes_digits, cleanOcrText_allDigits.
Qed.

(** The letters the recognizer confuses with digits are read as digits. *)
Example cleanOcrText_confusions :
  cleanOcrText "ID: 22O1S4T (l|!)" = "12201547111".
Proof. reflexivity. Qed.

Lemma stripNonDigits_idempotent (text : string) :
  Str.stripNonDigits (Str.stripNonDigits text) = Str.stripNonDigits text.
Proof.
  induction text as [|c text IH]; simpl; [reflexivity|].
  destruct (Str.isDigit c) eqn:E; simpl; [rewrite E, IH; reflexivity | exact IH].
Qed.

Lemma exactMatch_member (D : string) (validIds : list string) (v : string) :
  exactMatch D validIds = Some v -> In v validIds /\ occursIn v D.
Proof.
  intros H. apply exactMatch_some in H.
  destruct H as [earlier [later [-> [Hocc _]]]].
  split; [|exact Hocc]. apply in_or_app. right. now left.
Qed.

Lemma findValidStudentId_exact (validIds : list string) (text : string) :
  findValidStudentId validIds text = exactMatch (Str.stripNonDigits text) validIds.
Proof.
  unfold findValidStudentId. set (D := Str.stripNonDigits text).
  destruct (exactMatch D validIds) eqn:X; [reflexivity|].
  destruct (7 <=? String.length D)%nat eqn:L; [|reflexivity].
  apply Nat.leb_le in L.
  destruct (later_stages_unreachable validIds D X L) as [S F].
  now rewrite S, F.
Qed.

(** X2.  [findValidStudentId] never invents an identifier: whatever it
    returns is one of the valid identifiers and occurs in the digits of the
    text.  Characters that are not digits play no part: the text and its
    digits give the same result. *)
Theorem findValidStudentId_sound (validIds : list string) (text v : string) :
  findValidStudentId validIds text = Some v ->
  In v validIds /\
  occursIn v (Str.stripNonDigits text) /\
  findValidStudentId validIds (Str.stripNonDigits text) = Some v.
Proof.
  intros H. rewrite findValidStudentId_exact in H.
  destruct (exactMatch_member _ _ H) as [Hin Hocc].
  repeat split; try assumption.
  now rewrite findValidStudentId_exact, stripNonDigits_idempotent.
Qed.

Lemma findValidStudentId_sound_witness :
  In "2201547" ["2201521"; "2201547"] /\
  occursIn "2201547" (Str.stripNonDigits "ID: 2201547 CARD") /\
  findValidStudentId ["2201521"; "2201547"] (Str.stripNonDigits "ID: 2201547 CARD")
  = Some "2201547".
Proof.
  exact (@findValidStudentId_sound ["2201521"; "2201547"] "ID: 2201547 CARD"
           "2201547" eq_refl).
Defined.

End CleaningProperties.

(** ** A whole scan *)

Section ScanProperties.

Local Open Scope string_scope.

(** What one call of [scanFrame] can do to a scan that is running below its
    budget: nothing that matters, a report, one more failed attempt, or the
    timeout. *)
Lemma scanFrame_cases (validIds : list string) (ready : bool) (outcome : OcrOutcome)
    (st : Scanner) :
  isProcessing st = false -> scanCount st < MAX_ATTEMPTS ->
  let '(st', detected) := scanFrame validIds ready outcome st in
  isProcessing st' = false /\
  ((detected = None /\ scanInterval st' = scanInterval st /\
    scanCount st' = scanCount st /\ scanError st' = scanError st) \/
   (exists detectedId,
      detected = Some detectedId /\ In detectedId validIds /\ detectedId <> "" /\
      scanInterval st' = false /\ scanCount st' = scanCount st /\
      scanError st' = scanError st /\ scanStatus st' = "ID detected!") \/
   (detected = None /\ scanInterval st' = scanInterval st /\
    scanCount st' = S (scanCount st) /\ S (scanCount st) < MAX_ATTEMPTS /\
    scanError st' = scanError st) \/
   (detected = None /\ scanInterval st' = false /\ scanCount st' = MAX_ATTEMPTS /\
    scanError st' = Some timeoutMessage /\ scanStatus st' = "Scan timeout")).
Proof.
  intros Hp Hlt. unfold scanFrame. rewrite Hp. cbn [orb].
  destruct ready; cbn [negb]; [|split; [exact Hp | left; now repeat split]].
  destruct outcome as [rawText|]; [|split; [reflexivity | left; now repeat split]].
  destruct (findValidStudentId validIds rawText) as [[|c v]|] eqn:F; cbn [truthy].
  - (* the empty identifier is falsy *)
    cbn [countAttempt setScanStatus setProcessing scanCount].
    destruct (MAX_ATTEMPTS <=? S (scanCount st))%nat eqn:L; split; try reflexivity.
    + apply Nat.leb_le in L. right. right. right. repeat split. cbn. lia.
    + apply Nat.leb_gt in L. right. right. left. now repeat split.
  - split; [reflexivity|]. right. left. exists (String c v).
    rewrite findValidStudentId_exact in F.
    destruct (exactMatch_member _ _ F) as [Hin _].
    repeat split; try assumption. discriminate.
  - cbn [countAttempt setScanStatus setProcessing scanCount].
    destruct (MAX_ATTEMPTS <=? S (scanCount st))%nat eqn:L; split; try reflexivity.
    + apply Nat.leb_le in L. right. right. right. repeat split. cbn. lia.
    + apply Nat.leb_gt in L. right. right. left. now repeat split.
Qed.

(** X3.  A scan that has been started ends in exactly one of three ways,
    whatever the frames show: it is still running below its budget and has
    reported nothing; or it has stopped after reporting one identifier, which
    is a valid one, without an error; or it has stopped at the budget with
    the timeout error and has reported nothing.  So [onIDDetected] is called
    at most once per scan and the attempt counter never passes the budget. *)
Theorem scan_ends_one_way (validIds : list string) (ticks : list (bool * OcrOutcome))
    (st : Scanner) :
  let started := startScanning st in
  let '(st', reported) := scanRun validIds ticks started in
  (reported = [] /\ scanInterval st' = true /\ scanCount st' < MAX_ATTEMPTS /\
   scanError st' = scanError st) \/
  (exists detectedId,
     reported = [detectedId] /\ In detectedId validIds /\
     scanInterval st' = false /\ scanCount st' < MAX_ATTEMPTS /\
     scanError st' = scanError st /\ scanStatus st' = "ID detected!") \/
  (reported = [] /\ scanInterval st' = false /\ scanCount st' = MAX_ATTEMPTS /\
   scanError st' = Some timeoutMessage /\ scanStatus st' = "Scan timeout").
Proof.
  cbv zeta.
  assert (G : forall ticks s,
             isProcessing s = false -> scanInterval s = true ->
             scanCount s < MAX_ATTEMPTS ->
             let '(s', reported) := scanRun validIds ticks s in
             (reported = [] /\ scanInterval s' = true /\ scanCount s' < MAX_ATTEMPTS /\
              scanError s' = scanError s) \/
             (exists detectedId,
                reported = [detectedId] /\ In detectedId validIds /\
                scanInterval s' = false /\ scanCount s' < MAX_ATTEMPTS /\
                scanError s' = scanError s /\ scanStatus s' = "ID detected!") \/
             (reported = [] /\ scanInterval s' = false /\ scanCount s' = MAX_ATTEMPTS /\
              scanError s' = Some timeoutMessage /\ scanStatus s' = "Scan timeout")).
  { clear ticks st. induction ticks as [|[ready outcome] ticks IH]; intros s Hp Hon Hlt.
    - left. now repeat split.
    - cbn [scanRun]. rewrite Hon.
      pose proof (scanFrame_cases validIds ready outcome s Hp Hlt) as Hstep.
      destruct (scanFrame validIds ready outcome s) as [s1 detected].
      destruct Hstep as [Hp1 [[-> [Hi [Hc He]]] | [[d [-> [Hin [_ [Hi [Hc [He Hs]]]]]]]
                               | [[-> [Hi [Hc [Hroom He]]]] | [-> [Hi [Hc [He Hs]]]]]]]].
      + (* nothing counted *)
        specialize (IH s1 Hp1). rewrite Hi, Hc, He in IH. specialize (IH Hon Hlt).
        destruct (scanRun validIds ticks s1) as [s2 reported]. exact IH.
      + (* a report: the timer is cleared *)
        destruct ticks as [|[ready' outcome'] ticks]; cbn [scanRun]; [|rewrite Hi];
          right; left; exists d; repeat split; try assumption; lia.
      + (* one more failed attempt *)
        specialize (IH s1 Hp1). rewrite Hi, Hc, He in IH. specialize (IH Hon Hroom).
        destruct (scanRun validIds ticks s1) as [s2 reported]. exact IH.
      + (* the budget is reached *)
        destruct ticks as [|[ready' outcome'] ticks]; cbn [scanRun]; [|rewrite Hi];
          right; right; now repeat split. }
  apply (G ticks (startScanning st)); try reflexivity.
  unfold MAX_ATTEMPTS. cbn. lia.
Qed.

(** Whatever the state of the scanner, a run of callbacks reports at most
    one identifier, and a valid one. *)
Lemma scanRun_reports (validIds : list string) (ticks : list (bool * OcrOutcome))
    (st : Scanner) :
  snd (scanRun validIds ticks st) = [] \/
  exists detectedId,
    snd (scanRun validIds ticks st) = [detectedId] /\ In detectedId validIds.
Proof.
  revert st. induction ticks as [|[ready outcome] ticks IH]; intros st; [now left|].
  cbn [scanRun]. destruct (scanInterval st) eqn:Hon; [|now left].
  unfold scanFrame.
  destruct (isProcessing st || negb ready).
  { specialize (IH st). destruct (scanRun validIds ticks st). exact IH. }
  destruct outcome as [rawText|].
  2:{ match goal with |- context [scanRun validIds ticks ?s] =>
        specialize (IH s); destruct (scanRun validIds ticks s) end. exact IH. }
  destruct (truthy (findValidStudentId validIds rawText)) eqn:T.
  - destruct (findValidStudentId validIds rawText) as [v|] eqn:F; [|discriminate].
    rewrite findValidStudentId_exact in F. destruct (exactMatch_member _ _ F) as [Hin _].
    destruct ticks as [|[ready' outcome'] ticks]; cbn [scanRun scanInterval setProcessing
      setScanStatus stopScanning snd]; right; now exists v.
  - match goal with |- context [scanRun validIds ticks ?s] =>
      specialize (IH s); destruct (scanRun validIds ticks s) end. exact IH.
Qed.

Lemma getStudentByID_valid (STUDENTS : Registry) (key : string) :
  In key (getAllValidStudentIDs STUDENTS) ->
  exists student, getStudentByID STUDENTS key = Some (Student student).
Proof.
  unfold getAllValidStudentIDs, getStudentByID.
  induction STUDENTS as [|[k s] rest IH]; simpl; [intros []|].
  destruct (String.eqb k key) eqn:E; [intros _; now exists s|].
  intros [H | H]; [|now apply IH].
  apply String.eqb_neq in E. contradiction.
Qed.

(** The scanner and the controller, tick by tick, are the scan and its
    reports handed to [handleIDDetected]. *)
Lemma scanTicks_scanRun (STUDENTS : Registry) (engine : Engine)
    (ticks : list (bool * OcrOutcome)) (sys : Acquisition) :
  scanTicks STUDENTS engine ticks sys
  = {| scanner := fst (scanRun (getAllValidStudentIDs STUDENTS) ticks (scanner sys));
       flow := fold_left (fun f detectedId => handleIDDetected STUDENTS engine detectedId f)
                 (snd (scanRun (getAllValidStudentIDs STUDENTS) ticks (scanner sys)))
                 (flow sys) |}.
Proof.
  revert sys. induction ticks as [|[ready outcome] ticks IH]; intros sys.
  - now destruct sys.
  - cbn [scanTicks scanRun]. unfold scanTick.
    destruct (scanInterval (scanner sys)) eqn:Hon.
    + destruct (scanFrame (getAllValidStudentIDs STUDENTS) ready outcome (scanner sys))
        as [st1 detected].
      rewrite IH. cbn [scanner flow].
      destruct (scanRun (getAllValidStudentIDs STUDENTS) ticks st1) as [st2 reported].
      now destruct detected.
    + rewrite scanTicks_stopped by exact Hon. now destruct sys.
Qed.

(** X4.  The scanner only reports identifiers of the registry the controller
    looks them up in.  So a run of the scanner leaves the flow as it is or
    binds a registered student and moves to face verification; it never
    leads to the step for an unknown identifier. *)
Theorem scanner_reports_registered (STUDENTS : Registry) (engine : Engine)
    (ticks : list (bool * OcrOutcome)) (sys : Acquisition) :
  flow (scanTicks STUDENTS engine ticks sys) = flow sys \/
  exists detectedId student,
    In detectedId (getAllValidStudentIDs STUDENTS) /\
    getStudentByID STUDENTS detectedId = Some (Student student) /\
    flow (scanTicks STUDENTS engine ticks sys)
    = {| currentStep := VERIFYING_FACE;
         studentId := Some detectedId;
         studentData := Some (Student student);
         verificationResult := verificationResult (flow sys) |}.
Proof.
  rewrite scanTicks_scanRun. cbn [flow].
  destruct (scanRun_reports (getAllValidStudentIDs STUDENTS) ticks (scanner sys))
    as [-> | [detectedId [-> Hin]]]; [now left|].
  right. destruct (getStudentByID_valid STUDENTS detectedId Hin) as [student L].
  exists detectedId, student. cbn [fold_left]. unfold handleIDDetected. now rewrite L.
Qed.

End ScanProperties.

(** ** What the application shows *)

Section RenderingProperties.

Local Open Scope string_scope.

Variable STUDENTS : Registry.
Variable engine : Engine.

Lemma performAll_app (ops : list Operation) (op : Operation) (s : Flow) :
  performAll STUDENTS engine (ops ++ [op]) s
  = perform STUDENTS engine op (performAll STUDENTS engine ops s).
Proof. unfold performAll. now rewrite fold_left_app. Qed.

(** What the conditional blocks rely on: a success comes with a result; and
    as long as no identifier was a name the registry only inherits, face
    verification comes with an entry of the registry. *)
Lemma performAll_step_data (ops : list Operation) :
  let s := performAll STUDENTS engine ops initialFlow in
  (currentStep s = SUCCESS -> exists shown, verificationResult s = Some shown) /\
  currentStep s <> FAILED_MISMATCH /\
  (forallb (ownOrAbsent STUDENTS) ops = true ->
   currentStep s = VERIFYING_FACE ->
   exists student, studentData s = Some (Student student)).
Proof.
  cbv zeta. induction ops as [|op ops [IHs [IHm IHv]]] using rev_ind.
  - repeat split; discriminate.
  - rewrite performAll_app, forallb_app. cbn [forallb]. rewrite andb_true_r.
    destruct op; simpl.
    + unfold handleIDDetected.
      destruct (getStudentByID STUDENTS detectedId) as [[student|property|truthy]|] eqn:L;
        simpl; repeat split; try discriminate;
        intros Hown; apply andb_prop in Hown; destruct Hown as [_ Hown];
        try discriminate Hown.
      intros _. now exists student.
    + repeat split; try discriminate. intros _. eauto.
    + repeat split; discriminate.
    + repeat split; discriminate.
Qed.

(** X5.  After any sequence of calls of the four handlers, the application
    renders one of its screens and no second one: the scanner, the face
    verifier, the success screen with the recorded result, or the failure
    screen.  The one exception is face verification with nothing truthy
    bound, where it renders none; that takes an identifier which is a name
    the registry only inherits.  With identifiers that are entries of the
    registry or are found nowhere, there is always exactly one screen, and
    the face verifier is shown an entry of the registry. *)
Theorem exactly_one_screen (ops : list Operation) :
  let s := performAll STUDENTS engine ops initialFlow in
  (VerificationApp s = [] /\
   currentStep s = VERIFYING_FACE /\ isTruthy (studentData s) = false /\
   forallb (ownOrAbsent STUDENTS) ops = false) \/
  (exists screen,
     VerificationApp s = [screen] /\
     match screen with
     | IDScannerScreen => currentStep s = SCANNING_ID
     | FaceVerifierScreen shownId shownStudent =>
         currentStep s = VERIFYING_FACE /\ shownId = studentId s /\
         shownStudent = studentData s /\ isTruthy shownStudent = true /\
         (forallb (ownOrAbsent STUDENTS) ops = true ->
          exists student, shownStudent = Some (Student student))
     | SuccessScreen shownStudent shown =>
         currentStep s = SUCCESS /\ shownStudent = studentData s /\
         verificationResult s = Some shown
     | FailureScreen failureType shownId =>
         failureType = currentStep s /\ shownId = studentId s /\
         (failureType = FAILED_ID \/ failureType = FAILED_FACE)
     end).
Proof.
  cbv zeta. destruct (performAll_step_data ops) as [Hs [Hm Hv]].
  set (s := performAll STUDENTS engine ops initialFlow) in *.
  unfold VerificationApp. destruct (currentStep s) eqn:E.
  - right. exists IDScannerScreen. split; [|reflexivity].
    now destruct (verificationResult s).
  - destruct (isTruthy (studentData s)) eqn:T.
    + right. exists (FaceVerifierScreen (studentId s) (studentData s)).
      repeat split; try assumption. intros Hown. exact (Hv Hown eq_refl).
    + left. repeat split.
      destruct (forallb (ownOrAbsent STUDENTS) ops) eqn:Hown; [|reflexivity].
      destruct (Hv eq_refl eq_refl) as [student Hd]. rewrite Hd in T. discriminate T.
  - right. destruct (Hs eq_refl) as [shown Hres]. rewrite Hres.
    exists (SuccessScreen (studentData s) shown). now repeat split.
  - right. exists (FailureScreen FAILED_ID (studentId s)).
    split; [now destruct (verificationResult s) | auto].
  - right. exists (FailureScreen FAILED_FACE (studentId s)).
    split; [now destruct (verificationResult s) | auto].
  - now destruct Hm.
Qed.

(** X6.  In the application the step tells which fields of the session are
    set.  While scanning all three are empty.  While verifying, and after a
    failed face verification, the identifier and the record it looks up are
    bound and there is no result.  After a success there is, besides, a
    result that carries that identifier.  After a failed lookup there is
    only the identifier, which the registry does not have. *)
Theorem session_fields_follow_step (s : Flow) :
  reachableInApp STUDENTS engine s ->
  match currentStep s with
  | SCANNING_ID =>
      studentId s = None /\ studentData s = None /\ verificationResult s = None
  | VERIFYING_FACE | FAILED_FACE =>
      (exists detectedId student,
         studentId s = Some detectedId /\ studentData s = Some (Student student) /\
         getStudentByID STUDENTS detectedId = Some (Student student)) /\
      verificationResult s = None
  | SUCCESS =>
      exists detectedId student matched now,
        studentId s = Some detectedId /\ studentData s = Some (Student student) /\
        getStudentByID STUDENTS detectedId = Some (Student student) /\
        verificationResult s
        = Some {| result := matched; timestamp := now;
                  result_studentId := Some detectedId |}
  | FAILED_ID =>
      (exists detectedId,
         studentId s = Some detectedId /\
         getStudentByID STUDENTS detectedId = None) /\
      studentData s = None /\ verificationResult s = None
  | FAILED_MISMATCH => False
  end.
Proof.
  induction 1 as [|op s Hs IH Hr Ho]; [now repeat split|].
  unfold rendered in Hr.
  destruct op; destruct (currentStep s) eqn:E; try discriminate Hr; simpl.
  - (* handleIDDetected while scanning *)
    destruct IH as [_ [Hd Hres]]. unfold handleIDDetected.
    unfold ownOrAbsent in Ho.
    destruct (getStudentByID STUDENTS detectedId) as [[student|property|truthy]|] eqn:L;
      try discriminate Ho; simpl.
    + split; [now exists detectedId, student | exact Hres].
    + split; [now exists detectedId | now split].
  - (* handleFaceVerified while verifying *)
    destruct IH as [[detectedId [student [Hi [Hd L]]]] _].
    exists detectedId, student, matched, now. rewrite Hi. now repeat split.
  - (* handleFaceFailed while verifying *)
    exact IH.
  - now repeat split.
  - now repeat split.
  - now repeat split.
  - now repeat split.
Qed.

End RenderingProperties.

Section RenderingExamples.

Local Open Scope string_scope.

Lemma session_fields_follow_step_witness :
  (exists detectedId student,
     Some "2201547" = Some detectedId /\ Some (Student janeSmith) = Some (Student student) /\
     getStudentByID studentDatabase detectedId = Some (Student student)) /\
  @None VerificationResult = None.
Proof.
  exact (@session_fields_follow_step studentDatabase quietEngine
           (perform studentDatabase quietEngine (IDDetected "2201547") initialFlow)
           (inApp_perform (IDDetected "2201547")
              (inApp_initial studentDatabase quietEngine) eq_refl eq_refl)).
Defined.

(** A registered identifier brings up the face verifier, with its record. *)
Example face_verifier_alone :
  VerificationApp (performAll studentDatabase quietEngine [IDDetected "2201547"] initialFlow)
  = [FaceVerifierScreen (Some "2201547") (Some (Student janeSmith))].
Proof. reflexivity. Qed.

(** A failure hides everything else: the failure screen is the only one. *)
Example failure_screen_alone :
  VerificationApp (perform studentDatabase quietEngine (IDDetected "0000000") initialFlow)
  = [FailureScreen FAILED_ID (Some "0000000")].
Proof. reflexivity. Qed.

(** The exception happens: [isPrototypeOf], called on a state that is not an
    object, returns [false]; with such an engine the identifier
    ["isPrototypeOf"] leads to face verification with nothing to show. *)
Example inherited_name_shows_no_screen (engine : Engine) :
  engine "isPrototypeOf" None = Some (Other false) ->
  VerificationApp (performAll studentDatabase engine [IDDetected "isPrototypeOf"] initialFlow)
  = [].
Proof.
  intros H. unfold VerificationApp. cbn. now rewrite H.
Qed.

End RenderingExamples.

Section ProgressProperties.

Local Open Scope string_scope.

(** Where a step stands in [stepOrder]. *)
Lemma indexOf_stepOrder (x : string) :
  (indexOf stepOrder x = 0%Z /\ x = "scanning_id") \/
  (indexOf stepOrder x = 1%Z /\ x = "verifying_face") \/
  (indexOf stepOrder x = 2%Z /\ x = "success") \/
  (indexOf stepOrder x = (-1)%Z /\ ~ In x stepOrder).
Proof.
  unfold stepOrder, indexOf.
  destruct (String.eqb_spec "scanning_id" x) as [<- | N0]; [now left|].
  destruct (String.eqb_spec "verifying_face" x) as [<- | N1]; [right; now left|].
  destruct (String.eqb_spec "success" x) as [<- | N2]; [right; right; now left|].
  right. right. right. split; [reflexivity|]. simpl. intuition.
Qed.

(** X7.  The progress indicator shows every step as an error when the
    current step is a failure.  Otherwise the steps before the current one
    are completed, the current one is active and the later ones are pending:
    one of its three steps is active exactly when it is the current step. *)
Theorem getStepStatus_table (step : VerificationState) (current stepId : string) :
  map (getStepStatus (stateName step)) stepOrder
  = match step with
    | SCANNING_ID => ["active"; "pending"; "pending"]
    | VERIFYING_FACE => ["completed"; "active"; "pending"]
    | SUCCESS => ["completed"; "completed"; "active"]
    | FAILED_ID | FAILED_FACE | FAILED_MISMATCH => ["error"; "error"; "error"]
    end /\
  (Str.startsWith current "failed" = true -> getStepStatus current stepId = "error") /\
  (Str.startsWith current "failed" = false -> In stepId stepOrder ->
   (getStepStatus current stepId = "active" <-> stepId = current)).
Proof.
  split; [now destruct step|]. split.
  - intros H. unfold getStepStatus. now rewrite H.
  - intros H Hin. unfold getStepStatus. rewrite H.
    destruct (indexOf_stepOrder current) as [[-> ->] | [[-> ->] | [[-> ->] | [-> Hout]]]];
      destruct (indexOf_stepOrder stepId) as [[-> ->] | [[-> ->] | [[-> ->] | [-> Hno]]]];
      try contradiction; cbn;
      split; intros E; try reflexivity; try discriminate E;
      exfalso; apply Hout; rewrite <- E; exact Hin.
Qed.

End ProgressProperties.

(** ** Binarization of the frame *)

Section PreprocessProperties.

Local Open Scope Z_scope.

Lemma pixels_ind (P : list Z -> Prop) :
  P [] -> (forall r, P [r]) -> (forall r g, P [r; g]) -> (forall r g b, P [r; g; b]) ->
  (forall r g b a rest, P rest -> P (r :: g :: b :: a :: rest)) ->
  forall data, P data.
Proof.
  intros H0 H1 H2 H3 H4.
  fix IH 1. intros [|r [|g [|b [|a rest]]]];
    [apply H0 | apply H1 | apply H2 | apply H3 | apply H4, IH].
Qed.

Lemma binarize_values (gray : float) : binarize gray = 255 \/ binarize gray = 0.
Proof. unfold binarize. destruct (PrimFloat.ltb 128 gray); [now left | now right]. Qed.

(** White stays white and black stays black. *)
Lemma binarize_settled (value : Z) :
  value = 255 \/ value = 0 -> binarize (grayLevel value value value) = value.
Proof. intros [-> | ->]; reflexivity. Qed.

Lemma preprocessPixels_idempotent (data : list Z) :
  preprocessPixels (preprocessPixels data) = preprocessPixels data.
Proof.
  induction data as [|r|r g|r g b|r g b a rest IH] using pixels_ind;
    try reflexivity; cbn [preprocessPixels]; cbv zeta.
  - now rewrite (binarize_settled (binarize_values (grayLevel r g b))).
  - now rewrite (binarize_settled (binarize_values (grayLevel r g b))), IH.
Qed.

Lemma preprocessPixels_length (data : list Z) :
  List.length (preprocessPixels data) = List.length data.
Proof.
  induction data as [|r|r g|r g b|r g b a rest IH] using pixels_ind;
    try reflexivity. cbn [preprocessPixels List.length]. cbv zeta.
  cbn [List.length]. now rewrite IH.
Qed.

(** The pixel number [k] of the image, when it is whole. *)
Lemma preprocessPixels_pixel (data : list Z) (k : nat) :
  (4 * k + 3 < List.length data)%nat ->
  let r := nth (4 * k) data 0 in
  let g := nth (4 * k + 1) data 0 in
  let b := nth (4 * k + 2) data 0 in
  let out := preprocessPixels data in
  nth (4 * k) out 0 = binarize (grayLevel r g b) /\
  nth (4 * k + 1) out 0 = binarize (grayLevel r g b) /\
  nth (4 * k + 2) out 0 = binarize (grayLevel r g b) /\
  nth (4 * k + 3) out 0 = nth (4 * k + 3) data 0.
Proof.
  revert data. induction k as [|k IH]; intros data Hlen.
  - destruct data as [|r [|g [|b [|a rest]]]]; cbn [List.length] in Hlen; try lia.
    cbn. now repeat split.
  - destruct data as [|r [|g [|b [|a rest]]]]; cbn [List.length] in Hlen; try lia.
    specialize (IH rest ltac:(lia)). cbv zeta in IH.
    replace (4 * S k)%nat with (S (S (S (S (4 * k))))) by lia.
    cbn [preprocessPixels]. cbv zeta. cbn [Nat.add nth]. exact IH.
Qed.

(** X8.  [preprocessImage] binarizes the frame in place: the image keeps its
    length, every whole pixel gets one value, 0 or 255, in its red, green
    and blue bytes and keeps its alpha byte, and processing an image twice
    gives the same image as processing it once.  When the pixels cannot be
    read, the image is left as it was. *)
Theorem preprocessImage_binarizes (canvas : list Z) (readable : bool) (k : nat) :
  let out := preprocessImage canvas readable in
  List.length out = List.length canvas /\
  preprocessImage out readable = out /\
  preprocessImage canvas false = canvas /\
  ((4 * k + 3 < List.length canvas)%nat ->
   nth (4 * k + 3) out 0 = nth (4 * k + 3) canvas 0 /\
   (readable = true ->
    (nth (4 * k) out 0 = 255 \/ nth (4 * k) out 0 = 0) /\
    nth (4 * k + 1) out 0 = nth (4 * k) out 0 /\
    nth (4 * k + 2) out 0 = nth (4 * k) out 0)).
Proof.
  cbv zeta. unfold preprocessImage. destruct readable.
  - split; [apply preprocessPixels_length|].
    split; [apply preprocessPixels_idempotent|].
    split; [reflexivity|].
    intros Hlen. destruct (preprocessPixels_pixel canvas k Hlen) as [H0 [H1 [H2 H3]]].
    split; [exact H3|]. intros _. rewrite H0, H1, H2.
    split; [apply binarize_values | now split].
  - split; [reflexivity|]. split; [reflexivity|]. split; [reflexivity|].
    intros _. split; [reflexivity | discriminate].
Qed.

Lemma agreesOn_spec (limit : PrimInt63.int)
    (reds greens blues : list (PrimInt63.int * float)) :
  agreesOn limit reds greens blues = true ->
  forall red green blue, In red reds -> In green greens -> In blue blues ->
  PrimFloat.ltb 128 (PrimFloat.add (PrimFloat.add (snd red) (snd green)) (snd blue))
  = Uint63.ltb limit (Uint63.add (Uint63.add (fst red) (fst green)) (fst blue)).
Proof.
  unfold agreesOn. intros A red green blue Hr Hg Hb.
  rewrite forallb_forall in A. specialize (A red Hr).
  rewrite forallb_forall in A. specialize (A green Hg).
  rewrite forallb_forall in A. specialize (A blue Hb).
  now apply Bool.eqb_prop in A.
Qed.

(** The check itself, over the 256 * 256 * 256 colours. *)
Lemma thresholdAgrees :
  agreesOn (Uint63.of_Z 128000)
    (weighted (Uint63.of_Z 299) 0.299%float)
    (weighted (Uint63.of_Z 587) 0.587%float)
    (weighted (Uint63.of_Z 114) 0.114%float) = true.
Proof. vm_compute. reflexivity. Qed.

Lemma weighted_member (wi : PrimInt63.int) (wf : float) (value : Z) :
  0 <= value < 256 ->
  In (Uint63.mul wi (Uint63.of_Z value), PrimFloat.mul (channel value) wf)
     (weighted wi wf).
Proof.
  intros H. unfold weighted.
  apply (in_map (fun value : Z =>
                   (Uint63.mul wi (Uint63.of_Z value), PrimFloat.mul (channel value) wf))).
  apply in_map_iff. exists (Z.to_nat value). split; [lia|]. apply in_seq. lia.
Qed.

Lemma weighted_sum (r g b : Z) :
  0 <= r < 256 -> 0 <= g < 256 -> 0 <= b < 256 ->
  Uint63.to_Z
    (Uint63.add (Uint63.add (Uint63.mul (Uint63.of_Z 299) (Uint63.of_Z r))
                            (Uint63.mul (Uint63.of_Z 587) (Uint63.of_Z g)))
                (Uint63.mul (Uint63.of_Z 114) (Uint63.of_Z b)))
  = 299 * r + 587 * g + 114 * b.
Proof.
  intros Hr Hg Hb.
  rewrite !Uint63.add_spec, !Uint63.mul_spec, !Uint63.of_Z_spec.
  change Uint63.wB with 9223372036854775808.
  rewrite (Z.mod_small 299), (Z.mod_small 587), (Z.mod_small 114) by lia.
  rewrite (Z.mod_small r), (Z.mod_small g), (Z.mod_small b) by lia.
  rewrite (Z.mod_small (299 * r)), (Z.mod_small (587 * g)), (Z.mod_small (114 * b)) by lia.
  rewrite (Z.mod_small (299 * r + 587 * g)) by lia.
  apply Z.mod_small. lia.
Qed.

(** X9.  Rounding never decides a pixel.  For every colour of 8-bit
    channels, the gray level computed in doubles exceeds 128 exactly when
    the exact weighted sum does, that is when
    [299 r + 587 g + 114 b > 128000]; so that is when the pixel becomes white. *)
Theorem binarize_exact (r g b : Z) :
  0 <= r < 256 -> 0 <= g < 256 -> 0 <= b < 256 ->
  binarize (grayLevel r g b) = if 128000 <? 299 * r + 587 * g + 114 * b then 255 else 0.
Proof.
  intros Hr Hg Hb.
  pose proof (@agreesOn_spec _ _ _ _ thresholdAgrees _ _ _
                (weighted_member (Uint63.of_Z 299) 0.299%float Hr)
                (weighted_member (Uint63.of_Z 587) 0.587%float Hg)
                (weighted_member (Uint63.of_Z 114) 0.114%float Hb)) as A.
  cbn [fst snd] in A.
  unfold binarize, grayLevel. rewrite A.
  destruct (Uint63.ltb (Uint63.of_Z 128000) _) eqn:L.
  - apply Uint63.ltb_spec in L. rewrite weighted_sum in L by assumption.
    change (Uint63.to_Z (Uint63.of_Z 128000)) with 128000 in L.
    now rewrite (proj2 (Z.ltb_lt _ _) L).
  - assert (N : ~ 128000 < 299 * r + 587 * g + 114 * b).
    { intros C. rewrite <- (weighted_sum Hr Hg Hb) in C.
      change 128000 with (Uint63.to_Z (Uint63.of_Z 128000)) in C.
      apply Uint63.ltb_spec in C. congruence. }
    destruct (Z.ltb_spec 128000 (299 * r + 587 * g + 114 * b)); [contradiction | reflexivity].
Qed.

Lemma binarize_exact_witness :
  binarize (grayLevel 128 128 128) = 0 /\ binarize (grayLevel 129 129 129) = 255.
Proof.
  split.
  - exact (@binarize_exact 128 128 128 ltac:(lia) ltac:(lia) ltac:(lia)).
  - exact (@binarize_exact 129 129 129 ltac:(lia) ltac:(lia) ltac:(lia)).
Defined.

End PreprocessProperties.

(** ** What a verification stands for *)

Section VerificationProperties.

Variable cfg : FaceConfig.

Local Open Scope float_scope.

(** A comparison with NaN is false, so a score at or above a threshold is a
    number. *)
Lemma leb_not_nan (x y : float) : (x <=? y) = true -> PrimFloat.is_nan y = false.
Proof.
  unfold PrimFloat.is_nan. rewrite leb_spec, eqb_spec. unfold SFleb, SFeqb.
  destruct (Prim2SF x) as [sx|sx| |sx mx ex], (Prim2SF y) as [sy|sy| |sy my ey];
    simpl; try discriminate; intros _; try reflexivity;
    try (now destruct sy).
  all: destruct sy; rewrite ?Z.compare_refl, ?Pos.compare_cont_refl; reflexivity.
Qed.

(** No arrival touches the reference descriptor. *)
Lemma arrive_referenceDescriptor (a : Arrival) (st : FaceLoop) :
  referenceDescriptor (fst (arrive cfg a st)) = referenceDescriptor st.
Proof.
  assert (B : forall video outcome now,
             referenceDescriptor (fst (tickBody cfg video outcome now st))
             = referenceDescriptor st).
  { intros video outcome now. unfold tickBody.
    destruct outcome as [[|d [|d' ds]]|]; try reflexivity.
    destruct (checkFaceQuality video d && _); [|reflexivity].
    destruct (_ && negb (hasVerified st)); reflexivity. }
  destruct a as [video outcome now | video outcome now]; simpl; [|apply B].
  destruct (tickProceeds video st); [apply B | reflexivity].
Qed.

(** What an arrival does to the outside: nothing, or the announcement and
    one call of [onVerified], and then for a reason. *)
Lemma arrive_effects (a : Arrival) (st : FaceLoop) :
  snd (arrive cfg a st) = [] \/
  exists detection,
    match a with
    | Tick video outcome now | Resumption video outcome now =>
        outcome = Detected [detection] /\
        checkFaceQuality video detection = true /\
        (MATCHING_THROTTLE cfg <=? now - lastDetectionTime st)%Z = true
    end /\
    hasVerified st = false /\
    hasVerified (fst (arrive cfg a st)) = true /\
    (MATCH_THRESHOLD cfg
       <=? comparator cfg (Some (descriptor detection)) (referenceDescriptor st)) = true /\
    snd (arrive cfg a st)
    = [Speak;
       OnVerified
         {| similarity :=
              comparator cfg (Some (descriptor detection)) (referenceDescriptor st);
            confidence := score detection |}].
Proof.
  assert (B : forall video outcome now,
             snd (tickBody cfg video outcome now st) = [] \/
             exists detection,
               (outcome = Detected [detection] /\
                checkFaceQuality video detection = true /\
                (MATCHING_THROTTLE cfg <=? now - lastDetectionTime st)%Z = true) /\
               hasVerified st = false /\
               hasVerified (fst (tickBody cfg video outcome now st)) = true /\
               (MATCH_THRESHOLD cfg
                  <=? comparator cfg (Some (descriptor detection))
                        (referenceDescriptor st)) = true /\
               snd (tickBody cfg video outcome now st)
               = [Speak;
                  OnVerified
                    {| similarity :=
                         comparator cfg (Some (descriptor detection))
                           (referenceDescriptor st);
                       confidence := score detection |}]).
  { intros video outcome now. unfold tickBody.
    destruct outcome as [[|d [|d' ds]]|]; try (now left).
    destruct (checkFaceQuality video d) eqn:Q; cbn [andb]; [|now left].
    destruct (MATCHING_THROTTLE cfg <=? now - lastDetectionTime st)%Z eqn:T; [|now left].
    destruct (MATCH_THRESHOLD cfg <=? _) eqn:S; cbn [andb]; [|now left].
    destruct (hasVerified st) eqn:V; cbn [negb]; [now left|].
    right. exists d. now repeat split. }
  destruct a as [video outcome now | video outcome now]; simpl; [|apply B].
  destruct (tickProceeds video st); [apply B | now left].
Qed.

(** X10.  [onVerified] is never called without a match.  Whatever arrives
    at the loop, a call of [onVerified] comes from an arrival whose detector
    found exactly one face, which passed the quality gate; it carries that
    face's confidence and the score of its descriptor against the reference
    descriptor the loop started with; and that score is a number at or above
    the match threshold. *)
Theorem verified_means_matched (l : list Arrival) (st : FaceLoop) (matched : MatchResult) :
  In (OnVerified matched) (snd (arrivals cfg l st)) ->
  exists a detection,
    In a l /\
    match a with
    | Tick video outcome now | Resumption video outcome now =>
        outcome = Detected [detection] /\ checkFaceQuality video detection = true
    end /\
    matched
    = {| similarity :=
           comparator cfg (Some (descriptor detection)) (referenceDescriptor st);
         confidence := score detection |} /\
    (MATCH_THRESHOLD cfg <=? similarity matched) = true /\
    PrimFloat.is_nan (similarity matched) = false.
Proof.
  revert st. induction l as [|a l IH]; intros st; [intros []|].
  cbn [arrivals].
  pose proof (arrive_effects a st) as E.
  pose proof (arrive_referenceDescriptor a st) as D.
  destruct (arrive cfg a st) as [st1 e1]. cbn [fst snd] in E, D.
  specialize (IH st1). destruct (arrivals cfg l st1) as [st2 e2]. cbn [snd] in *.
  intros Hin. apply in_app_or in Hin. destruct Hin as [Hin | Hin].
  - destruct E as [-> | [detection [Ha [_ [_ [S ->]]]]]]; [destruct Hin|].
    destruct Hin as [Hin | [Hin | []]]; [discriminate|].
    injection Hin as <-. exists a, detection. cbn [similarity].
    split; [now left|].
    split; [destruct a; now destruct Ha as [? [? _]]|].
    split; [reflexivity|]. split; [exact S | exact (@leb_not_nan _ _ S)].
  - destruct (IH Hin) as [a' [detection [Hl H]]]. rewrite D in H.
    exists a', detection. split; [now right | exact H].
Qed.

(** X11.  The face verifier changes the session at most once, and only by
    recording a match: after any run of the loop the session is the one the
    run started with, or the one [handleFaceVerified] makes of it for a score
    at or above the threshold, stamped with the clock of one of the arrivals. *)
Theorem session_records_a_match (l : list (Arrival * string)) (sys : Verification) :
  session (verificationSteps cfg l sys) = session sys \/
  exists matched clock,
    In clock (map snd l) /\
    (MATCH_THRESHOLD cfg <=? similarity matched) = true /\
    session (verificationSteps cfg l sys)
    = handleFaceVerified matched clock (session sys).
Proof.
  revert sys. induction l as [|[a clock] l IH]; intros sys; [now left|].
  cbn [verificationSteps].
  assert (Hstep : verificationStep cfg (a, clock) sys
                  = {| faceLoop := fst (arrive cfg a (faceLoop sys));
                       session := deliver (snd (arrive cfg a (faceLoop sys))) clock
                                    (session sys) |}).
  { unfold verificationStep. cbn [fst snd]. now destruct (arrive cfg a (faceLoop sys)). }
  rewrite Hstep. clear Hstep.
  destruct (arrive_effects a (faceLoop sys)) as [-> | [detection [_ [_ [V [S ->]]]]]].
  - cbn [deliver].
    destruct (IH {| faceLoop := fst (arrive cfg a (faceLoop sys));
                    session := session sys |})
      as [H | [matched [clock' [Hin H]]]]; cbn [session] in *.
    + now left.
    + right. exists matched, clock'. split; [now right | exact H].
  - right.
    exists {| similarity :=
                comparator cfg (Some (descriptor detection))
                  (referenceDescriptor (faceLoop sys));
              confidence := score detection |}, clock.
    split; [now left|]. split; [exact S|].
    now rewrite verificationSteps_after_verified.
Qed.

End VerificationProperties.

Section VerificationExamples.

Local Open Scope float_scope.

Lemma verified_means_matched_witness :
  exists a detection,
    In a [Tick (Some 640) (Detected [centredFace]) 5000] /\
    match a with
    | Tick video outcome now | Resumption video outcome now =>
        outcome = Detected [detection] /\ checkFaceQuality video detection = true
    end /\
    {| similarity := 1; confidence := 0.9 |}
    = {| similarity :=
           comparator cosineConfig (Some (descriptor detection))
             (referenceDescriptor startedLoop);
         confidence := score detection |} /\
    (MATCH_THRESHOLD cosineConfig <=? 1) = true /\
    PrimFloat.is_nan 1 = false.
Proof.
  exact (@verified_means_matched cosineConfig
           [Tick (Some 640) (Detected [centredFace]) 5000] startedLoop
           {| similarity := 1; confidence := 0.9 |}
           (or_intror (or_introl eq_refl))).
Defined.

End VerificationExamples.

(** ** The order of doubles *)

Section DoubleOrder.

Local Open Scope float_scope.

(** Among numbers, "below or equal" composes, and is strict as soon as one
    of the two steps is. *)
Lemma SFcompare_trans (x y z : spec_float) (c1 c2 : comparison) :
  SFcompare x y = Some c1 -> SFcompare y z = Some c2 ->
  c1 <> Gt -> c2 <> Gt ->
  SFcompare x z = Some match c1, c2 with Eq, Eq => Eq | _, _ => Lt end.
Proof.
  destruct x as [sx|sx| |sx mx ex], y as [sy|sy| |sy my ey], z as [sz|sz| |sz mz ez];
    simpl; try discriminate;
    try (destruct sx); try (destruct sy); try (destruct sz);
    intros H1 H2 N1 N2; injection H1 as <-; injection H2 as <-;
    try congruence; try reflexivity.
  all: revert N1 N2;
    repeat (match goal with
            | |- context [(?a ?= ?b)%Z] => destruct (Z.compare_spec a b)
            | |- context [Pos.compare_cont Eq ?a ?b] =>
                change (Pos.compare_cont Eq a b) with (Pos.compare a b);
                destruct (Pos.compare_spec a b)
            end; simpl; try subst);
    intros N1 N2; try congruence; try lia.
Qed.

Lemma ltb_trans (x y z : float) :
  (x <? y) = true -> (y <? z) = true -> (x <? z) = true.
Proof.
  rewrite !ltb_spec. unfold SFltb.
  destruct (SFcompare (Prim2SF x) (Prim2SF y)) as [[| |]|] eqn:E1; try discriminate.
  destruct (SFcompare (Prim2SF y) (Prim2SF z)) as [[| |]|] eqn:E2; try discriminate.
  intros _ _. now rewrite (@SFcompare_trans _ _ _ _ _ E1 E2) by discriminate.
Qed.

Lemma leb_trans (x y z : float) :
  (x <=? y) = true -> (y <=? z) = true -> (x <=? z) = true.
Proof.
  rewrite !leb_spec. unfold SFleb.
  destruct (SFcompare (Prim2SF x) (Prim2SF y)) as [[| |]|] eqn:E1; try discriminate;
    destruct (SFcompare (Prim2SF y) (Prim2SF z)) as [[| |]|] eqn:E2; try discriminate;
    intros _ _; now rewrite (@SFcompare_trans _ _ _ _ _ E1 E2) by discriminate.
Qed.

Lemma ltb_leb_trans (x y z : float) :
  (x <? y) = true -> (y <=? z) = true -> (x <? z) = true.
Proof.
  rewrite !ltb_spec, leb_spec. unfold SFltb, SFleb.
  destruct (SFcompare (Prim2SF x) (Prim2SF y)) as [[| |]|] eqn:E1; try discriminate.
  destruct (SFcompare (Prim2SF y) (Prim2SF z)) as [[| |]|] eqn:E2; try discriminate;
    intros _ _; now rewrite (@SFcompare_trans _ _ _ _ _ E1 E2) by discriminate.
Qed.

Lemma ltb_leb (x y : float) : (x <? y) = true -> (x <=? y) = true.
Proof.
  rewrite ltb_spec, leb_spec. unfold SFltb, SFleb.
  now destruct (SFcompare (Prim2SF x) (Prim2SF y)) as [[| |]|].
Qed.

Lemma leb_refl (x : float) : PrimFloat.is_nan x = false -> (x <=? x) = true.
Proof.
  intros Hn. apply not_nan_spec in Hn. rewrite leb_spec. unfold SFleb.
  destruct (Prim2SF x) as [s|s| |s m e]; simpl; try reflexivity;
    try (now destruct s); try congruence.
  destruct s; now rewrite Z.compare_refl, Pos.compare_cont_refl.
Qed.

Lemma ltb_asym (x y : float) : (x <? y) = true -> (y <? x) = false.
Proof.
  rewrite !ltb_spec. unfold SFltb. rewrite (SFcompare_swap (Prim2SF x) (Prim2SF y)).
  now destruct (SFcompare (Prim2SF x) (Prim2SF y)) as [[| |]|].
Qed.

Lemma ltb_irrefl (x : float) : (x <? x) = false.
Proof. destruct (x <? x) eqn:E; [|reflexivity]. now rewrite (@ltb_asym _ _ E) in E. Qed.

Lemma ltb_not_nan (x y : float) :
  (x <? y) = true -> PrimFloat.is_nan x = false /\ PrimFloat.is_nan y = false.
Proof.
  unfold PrimFloat.is_nan. rewrite ltb_spec, !eqb_spec. unfold SFltb, SFeqb.
  destruct (Prim2SF x) as [sx|sx| |sx mx ex], (Prim2SF y) as [sy|sy| |sy my ey];
    simpl; try discriminate; intros _;
    try (destruct sx); try (destruct sy);
    rewrite ?Z.compare_refl, ?Pos.compare_cont_refl; now split.
Qed.

(** A finite number minus itself is [+0]. *)
Lemma sub_diag (x : float) : PrimFloat.is_finite x = true -> x - x = 0.
Proof.
  intros Hx. apply Prim2SF_inj. rewrite sub_spec. unfold SF64sub.
  change (Prim2SF 0) with (S754_zero false).
  destruct (@finite_cases x Hx) as [[s ->] | [s [m [e ->]]]].
  - now destruct s.
  - simpl. now rewrite Z.sub_diag.
Qed.

End DoubleOrder.

(** ** The comparators on doubles *)

Section DoubleComparators.

Local Open Scope float_scope.

Lemma sumSquaredDiffs_diag (a : list float) :
  Forall (fun x => PrimFloat.is_finite x = true) a -> sumSquaredDiffs a a 0 = 0.
Proof.
  induction 1 as [|x a Hx Ha IH]; [reflexivity|].
  cbn [sumSquaredDiffs]. cbv zeta.
  change (@num_sub float float_arith x x) with (x - x).
  rewrite (@sub_diag x Hx). exact IH.
Qed.

(** X12.  On the doubles the code computes with, the distance-based
    comparator gives a descriptor of finite numbers the score 1 against
    itself, exactly: every difference is [+0], so is the distance, and
    [Math.max(0, 1 - 0)] is 1. *)
Theorem faceSimilarity_self_is_one (a : list float) :
  Forall (fun x => PrimFloat.is_finite x = true) a ->
  faceSimilarity (Some a) (Some a) = 1.
Proof.
  intros Ha. unfold faceSimilarity. rewrite Nat.eqb_refl. cbn [negb]. cbv zeta.
  change (sumSquaredDiffs a a num_zero) with (sumSquaredDiffs a a 0).
  now rewrite (@sumSquaredDiffs_diag _ Ha).
Qed.

Lemma faceSimilarity_self_is_one_witness :
  faceSimilarity (Some [0.1; -0.25; 3]) (Some [0.1; -0.25; 3]) = 1.
Proof.
  apply (@faceSimilarity_self_is_one [0.1; -0.25; 3]).
  repeat constructor.
Defined.

Lemma Math_max_zero (y : float) : (Math_max 0 y <? 0) = false.
Proof.
  unfold Math_max. change (PrimFloat.is_nan 0) with false. cbn [orb].
  destruct (PrimFloat.is_nan y); [reflexivity|].
  destruct (0 <? y) eqn:P; [exact (@ltb_asym _ _ P)|].
  destruct (y <? 0) eqn:N; reflexivity.
Qed.

(** X13.  Whatever the descriptors are, of any lengths and with any
    components, NaN and infinities included, the distance-based comparator
    never returns a number below zero. *)
Theorem faceSimilarity_never_negative (a b : option (list float)) :
  (faceSimilarity a b <? 0) = false.
Proof.
  unfold faceSimilarity. destruct a as [a|], b as [b|]; try reflexivity.
  destruct (negb (List.length a =? List.length b)%nat); [reflexivity|].
  cbv zeta. apply Math_max_zero.
Qed.

End DoubleComparators.

(** ** The best match *)

Section BestMatchProperties.

Local Open Scope float_scope.

Variable currentDescriptor : list float.

(** The loop, from any number in [bestSim]: it ends with a number that no
    face of the list exceeds and that the entry value does not exceed; and
    [bestFace] is as on entry, or is a face of the list whose score is the
    result. *)
Lemma bestMatchFrom_spec (referenceFaces : list ReferenceFace) (bestSim : float)
    (bestFace : option ReferenceFace) :
  PrimFloat.is_nan bestSim = false ->
  let '(best, face) := bestMatchFrom currentDescriptor referenceFaces bestSim bestFace in
  PrimFloat.is_nan best = false /\
  (bestSim <=? best) = true /\
  (forall other, In other referenceFaces ->
     (best <? cosineSimilarity (Some currentDescriptor)
                (Some (face_descriptor other))) = false) /\
  ((best = bestSim /\ face = bestFace) \/
   (exists chosen,
      face = Some chosen /\ In chosen referenceFaces /\
      best = cosineSimilarity (Some currentDescriptor) (Some (face_descriptor chosen)) /\
      (bestSim <? best) = true)).
Proof.
  revert bestSim bestFace.
  induction referenceFaces as [|f rest IH]; intros bestSim bestFace Hn.
  - cbn [bestMatchFrom]. split; [exact Hn|].
    split; [exact (@leb_refl _ Hn) | split; [intros other [] | now left]].
  - cbn [bestMatchFrom]. cbv zeta.
    set (score := cosineSimilarity (Some currentDescriptor) (Some (face_descriptor f))).
    destruct (bestSim <? score) eqn:L.
    + destruct (@ltb_not_nan _ _ L) as [_ Hs].
      specialize (IH score (Some f) Hs).
      destruct (bestMatchFrom currentDescriptor rest score (Some f)) as [best face].
      destruct IH as [Hb [Hle [Hmax Hface]]].
      pose proof (@ltb_leb_trans _ _ _ L Hle) as Hlt.
      split; [exact Hb|]. split; [exact (@ltb_leb _ _ Hlt)|].
      split.
      { intros other [<- | Hin]; [|now apply Hmax].
        fold score. destruct (best <? score) eqn:C; [|reflexivity].
        rewrite (@ltb_negb_leb _ _ Hb Hs), Hle in C. discriminate. }
      right. destruct Hface as [[-> ->] | [chosen [-> [Hin [-> H]]]]].
      * exists f. repeat split; auto. now left.
      * exists chosen. repeat split; auto. now right.
    + specialize (IH bestSim bestFace Hn).
      destruct (bestMatchFrom currentDescriptor rest bestSim bestFace) as [best face].
      destruct IH as [Hb [Hle [Hmax Hface]]].
      split; [exact Hb|]. split; [exact Hle|]. split.
      { intros other [<- | Hin]; [|now apply Hmax].
        fold score. destruct (best <? score) eqn:C; [|reflexivity].
        destruct (@ltb_not_nan _ _ C) as [_ Hs].
        rewrite (@ltb_negb_leb _ _ Hn Hs) in L. apply negb_false_iff in L.
        rewrite (@ltb_negb_leb _ _ Hb Hs) in C. apply negb_true_iff in C.
        now rewrite (@leb_trans _ _ _ L Hle) in C. }
      destruct Hface as [[-> ->] | [chosen [-> [Hin [-> H]]]]]; [now left|].
      right. exists chosen. repeat split; auto. now right.
Qed.

(** X14.  The loop over the reference faces returns a best score that no
    reference face exceeds.  When it returns a face, that face is one of the
    reference faces, the best score is its score, and it is above -1; when
    it returns none, the best score is still -1. *)
Theorem bestMatch_is_maximal (referenceFaces : list ReferenceFace) :
  let '(bestSim, bestFace) := bestMatch currentDescriptor referenceFaces in
  (forall other, In other referenceFaces ->
     (bestSim <? cosineSimilarity (Some currentDescriptor)
                   (Some (face_descriptor other))) = false) /\
  match bestFace with
  | Some chosen =>
      In chosen referenceFaces /\
      bestSim = cosineSimilarity (Some currentDescriptor) (Some (face_descriptor chosen)) /\
      (-1 <? bestSim) = true
  | None => bestSim = -1
  end.
Proof.
  unfold bestMatch.
  pose proof (@bestMatchFrom_spec referenceFaces (-1) None eq_refl) as H.
  destruct (bestMatchFrom currentDescriptor referenceFaces (-1) None) as [best face].
  destruct H as [_ [_ [Hmax Hface]]]. split; [exact Hmax|].
  destruct Hface as [[-> ->] | [chosen [-> [Hin [E L]]]]]; [reflexivity|].
  now repeat split.
Qed.

(** X15.  In the copy of the page that reads its refs: once a single face
    has passed the quality gate, the page announces a match exactly when it
    is mounted, has not verified yet, and some reference face scores at
    least 0.5 against the current descriptor. *)
Theorem matchFound_iff_some_face_matches (referenceFaces : list ReferenceFace)
    (isMounted hasVerified : bool) :
  matchFound currentDescriptor referenceFaces isMounted hasVerified
  = isMounted && negb hasVerified
    && existsb (fun face =>
                  0.5 <=? cosineSimilarity (Some currentDescriptor)
                            (Some (face_descriptor face)))
         referenceFaces.
Proof.
  unfold matchFound, bestMatch.
  pose proof (@bestMatchFrom_spec referenceFaces (-1) None eq_refl) as H.
  destruct (bestMatchFrom currentDescriptor referenceFaces (-1) None) as [best face].
  destruct H as [Hb [_ [Hmax Hface]]].
  destruct (existsb _ referenceFaces) eqn:X.
  - apply existsb_exists in X. destruct X as [g [Hin Hg]].
    assert (T : (0.5 <=? best) = true).
    { apply (@leb_trans _ _ _ Hg).
      pose proof (Hmax g Hin) as C.
      rewrite (@ltb_negb_leb _ _ Hb (@leb_not_nan _ _ Hg)) in C.
      now apply negb_false_iff in C. }
    destruct Hface as [[-> ->] | [chosen [-> _]]]; [discriminate T|].
    cbv zeta. rewrite T. destruct isMounted, hasVerified; reflexivity.
  - destruct face as [chosen|]; [|now destruct isMounted, hasVerified].
    destruct Hface as [[_ Hf] | [chosen' [Hf [Hin [E _]]]]]; [discriminate Hf|].
    injection Hf as <-. cbv zeta.
    destruct (0.5 <=? best) eqn:T; [|now destruct isMounted, hasVerified].
    exfalso. rewrite E in T.
    assert (existsb (fun face => 0.5 <=? cosineSimilarity (Some currentDescriptor)
                                   (Some (face_descriptor face))) referenceFaces = true).
    { apply existsb_exists. now exists chosen. }
    congruence.
Qed.

End BestMatchProperties.

(** ** The distance-based comparator in exact arithmetic *)

Section ExactDistance.

Local Open Scope R_scope.

(** The loop only adds squares to what it starts from. *)
Lemma sumSquaredDiffs_grows (a b : list R) (sum : R) :
  sum <= sumSquaredDiffs a b sum.
Proof.
  revert b sum. induction a as [|x a IH]; intros [|y b] sum; try apply Rle_refl.
  cbn [sumSquaredDiffs]. cbv zeta.
  apply Rle_trans with (2 := IH b _).
  cbn [num_add num_sub num_mul real_arith].
  pose proof (Rle_0_sqr (x - y)) as Hsq. unfold Rsqr in Hsq. lra.
Qed.

(** It adds nothing exactly when the two descriptors are the same. *)
Lemma sumSquaredDiffs_same (a b : list R) (sum : R) :
  List.length a = List.length b ->
  sumSquaredDiffs a b sum = sum -> a = b.
Proof.
  revert b sum. induction a as [|x a IH]; intros [|y b] sum Hlen; try discriminate;
    [reflexivity|].
  cbn [sumSquaredDiffs]. cbv zeta. cbn [num_add num_sub num_mul real_arith].
  intros H. injection Hlen as Hlen.
  pose proof (sumSquaredDiffs_grows a b (sum + (x - y) * (x - y))) as G.
  pose proof (Rle_0_sqr (x - y)) as Hsq. unfold Rsqr in Hsq.
  assert (Z : (x - y) * (x - y) = 0) by lra.
  apply Rmult_integral in Z.
  assert (x = y) by lra. subst y. f_equal.
  apply (IH b (sum + (x - x) * (x - x)) Hlen). lra.
Qed.

Lemma sumSquaredDiffs_diag_exact (a : list R) (sum : R) :
  sumSquaredDiffs a a sum = sum.
Proof.
  revert sum. induction a as [|x a IH]; intros sum; [reflexivity|].
  cbn [sumSquaredDiffs]. cbv zeta. rewrite IH.
  cbn [num_add num_sub num_mul real_arith]. ring.
Qed.

(** X16.  Read in exact real arithmetic, the distance-based comparator gives
    the score 1 to two descriptors exactly when they are the same
    descriptor; descriptors of different lengths never score 1. *)
Theorem faceSimilarity_one_iff_same (a b : list R) :
  faceSimilarity (Some a) (Some b) = 1 <-> a = b.
Proof.
  unfold faceSimilarity. split.
  - destruct (Nat.eqb_spec (List.length a) (List.length b)) as [Hlen | Hlen];
      cbn [negb num_zero num_one num_max num_sub num_sqrt real_arith]; [|lra].
    pose proof (sqrt_pos (sumSquaredDiffs a b 0)) as P.
    pose proof (sumSquaredDiffs_grows a b 0) as G.
    unfold Rmax. destruct (Rle_dec 0 (1 - sqrt (sumSquaredDiffs a b 0))); [|lra].
    intros H. assert (S : sqrt (sumSquaredDiffs a b 0) = 0) by lra.
    apply sqrt_eq_0 in S; [|exact G].
    exact (@sumSquaredDiffs_same a b 0 Hlen S).
  - intros <-. rewrite Nat.eqb_refl.
    cbn [negb num_zero num_one num_max num_sub num_sqrt real_arith].
    rewrite sumSquaredDiffs_diag_exact, sqrt_0.
    unfold Rmax. destruct (Rle_dec 0 (1 - 0)); lra.
Qed.

End ExactDistance.
